(** * Events app: the Streamlit page of [app.py]

    A shallow embedding of [app.py]: the two generation helpers, the
    download link, and the body of [main] from [if generate_btn:] on,
    with the section extraction of lines 143-147 that splits the
    generated text on the literal headers.

    Python [str] values are sequences of Unicode code points; they are
    modelled as lists of code points.  Streamlit calls and the calls to
    the remote provider are recorded as a trace of events; Python
    exceptions are an explicit outcome. *)

From Stdlib Require Import Ascii String.
From Stdlib Require Import List NArith Arith Bool Lia.
Import ListNotations.

(** ** Python strings and exceptions *)

Module Py.

Definition char := N.
Definition str := list char.

(** A string literal of the source, one code point per ASCII character. *)
Definition cp (s : string) : str := map N_of_ascii (list_ascii_of_string s).

Definition nl : char := 10%N.
Definition dquote : char := 34%N.

(** [str.isspace] on one code point: the white space of the Unicode
    character database, as CPython's [_PyUnicode_IsWhitespace] lists it. *)
Definition isspace (c : char) : bool :=
  ((9 <=? c) && (c <=? 13)
   || (28 <=? c) && (c <=? 32)
   || (c =? 133) || (c =? 160) || (c =? 5760)
   || (8192 <=? c) && (c <=? 8202)
   || (c =? 8232) || (c =? 8233) || (c =? 8239) || (c =? 8287)
   || (c =? 12288))%N.

Fixpoint lstrip (s : str) : str :=
  match s with
  | [] => []
  | c :: s' => if isspace c then lstrip s' else s
  end.

Definition rstrip (s : str) : str := rev (lstrip (rev s)).

(** [s.strip()] *)
Definition strip (s : str) : str := rstrip (lstrip s).

(** [s.startswith(p)] *)
Fixpoint startswith (p s : str) : bool :=
  match p, s with
  | [], _ => true
  | _ :: _, [] => false
  | a :: p', b :: s' => N.eqb a b && startswith p' s'
  end.

(** [s.find(sep)]: the lowest index where [sep] occurs, [None] for -1. *)
Fixpoint find (sep s : str) : option nat :=
  if startswith sep s then Some 0
  else match s with
       | [] => None
       | _ :: s' => option_map S (find sep s')
       end.

(** Number of positions of [s] at which [sep] occurs. *)
Fixpoint occurrences (sep s : str) : nat :=
  (if startswith sep s then 1 else 0) +
  match s with
  | [] => 0
  | _ :: s' => occurrences sep s'
  end.

(** The scan of [s.split(sep)] for a non-empty [sep]: left to right,
    cutting at each occurrence found and resuming after it.  [skip]
    counts the characters of a matched separator still to be passed,
    [cur] is the piece being collected. *)
Fixpoint split_scan (sep : str) (skip : nat) (cur s : str) : list str :=
  match s with
  | [] => [cur]
  | c :: s' =>
      match skip with
      | S k => split_scan sep k cur s'
      | O =>
          if startswith sep s
          then cur :: split_scan sep (length sep - 1) [] s'
          else split_scan sep 0 (cur ++ [c]) s'
      end
  end.

(** [x] occurs in [s] as a contiguous slice. *)
Definition slice_of (x s : str) : Prop := exists a b, s = a ++ x ++ b.

(** Exceptions. *)

Inductive exn : Type :=
| IndexError                   (* list index out of range *)
| ValueError                   (* empty separator *)
| ProviderFault (msg : str).   (* anything a library call raises *)

Inductive result (A : Type) : Type :=
| Ok (a : A)
| Raise (e : exn).

Arguments Ok {A} a.
Arguments Raise {A} e.

(** [str(e)] *)
Definition exn_str (e : exn) : str :=
  match e with
  | IndexError => cp "list index out of range"
  | ValueError => cp "empty separator"
  | ProviderFault msg => msg
  end.

(** [s.split(sep)] *)
Definition split (s sep : str) : result (list str) :=
  match sep with
  | [] => Raise ValueError
  | _ :: _ => Ok (split_scan sep 0 [] s)
  end.

(** Sequencing of computations that may raise. *)
Definition rbind {A B : Type} (r : result A) (k : A -> result B) : result B :=
  match r with
  | Ok a => k a
  | Raise e => Raise e
  end.

(** Truth value of a string: empty strings are false. *)
Definition truthy (s : str) : bool :=
  match s with
  | [] => false
  | _ :: _ => true
  end.

(** [l[i]] for [i >= 0] *)
Definition index {A : Type} (l : list A) (i : nat) : result A :=
  match nth_error l i with
  | Some x => Ok x
  | None => Raise IndexError
  end.

End Py.

Notation "'let*' x ':=' r 'in' k" := (Py.rbind r (fun x => k))
  (at level 10, x pattern, r at level 100, k at level 200).

(** ** The application *)

Module App.
Import Py.

Definition bytes := list N.

(** Line 84, [base64.b64encode(...).decode()]: the standard alphabet,
    three bytes to four characters, ['='] for the missing ones at the
    end. *)
Definition b64_alphabet : str :=
  cp "ABCDEFGHIJKLMNOPQRSTUVWXYZabcdefghijklmnopqrstuvwxyz0123456789+/".

Definition b64_pad : char := 61%N.

Definition b64_char (i : N) : char := nth (N.to_nat i) b64_alphabet b64_pad.

Fixpoint b64encode (data : bytes) : str :=
  match data with
  | [] => []
  | [a] =>
      [b64_char (a / 4); b64_char ((a mod 4) * 16); b64_pad; b64_pad]
  | [a; b] =>
      [b64_char (a / 4); b64_char ((a mod 4) * 16 + b / 16);
       b64_char ((b mod 16) * 4); b64_pad]
  | a :: b :: c :: rest =>
      b64_char (a / 4) :: b64_char ((a mod 4) * 16 + b / 16)
      :: b64_char ((b mod 16) * 4 + c / 64) :: b64_char (c mod 64)
      :: b64encode rest
  end%N.

(** The characters base64 text is made of. *)
Definition is_b64_char (c : char) : bool :=
  ((65 <=? c) && (c <=? 90) || (97 <=? c) && (c <=? 122)
   || (48 <=? c) && (c <=? 57) || (c =? 43) || (c =? 47) || (c =? 61))%N.

(** The libraries the page calls, as far as it uses them; each call
    may raise.  [chat_completions_create] and [images_generate] are one
    call into the OpenAI client each, with the page's fixed model,
    sampling, size and style parameters (the second returning
    [response.data[0].url]); what the client does inside one call, its
    own re-sending of a failed request included, is not modelled.
    [requests_get] and [Image_open] are the download of the image and
    its opening; [Image_save_png] is [img.save(buffered, format="PNG")]
    followed by [buffered.getvalue()]; [st_image_render] is what
    [st.image] does with the image before it is on the page.  The last
    two read the pixel data, which [Image.open] has not yet done. *)
Record Provider : Type := {
  Image : Type;
  chat_completions_create : str -> str -> result (option str);
  images_generate : str -> str -> result str;
  requests_get : str -> result bytes;
  Image_open : bytes -> result Image;
  Image_save_png : Image -> result bytes;
  st_image_render : Image -> result unit
}.

Inductive container : Type :=
| spinner (text : str)
| col1
| col2
| post_tab (i : nat)
| expander (label : str).

Section Script.

Variable P : Provider.

(** What a run of the script does, in order.  [TextRequest] and
    [ImageRequest] record the calls of [client.chat.completions.create]
    and [client.images.generate], [HttpGet] the call of [requests.get];
    [st_image] records an image that [st.image] has put on the page. *)
Inductive event : Type :=
| TextRequest (prompt api_key : str)
| ImageRequest (prompt api_key : str)
| HttpGet (url : str)
| Enter (c : container)
| st_columns (spec : list nat)
| st_error (msg : str)
| st_success (msg : str)
| st_subheader (msg : str)
| st_markdown (body : str) (unsafe_allow_html : bool)
| st_tabs (names : list str)
| st_text_area (label value : str) (height : nat)
| st_image (img : Image P)
| st_write (body : str).

(** A computation: the events it produced and how it ended. *)
Definition M (A : Type) : Type := (list event * result A)%type.

Definition ret {A : Type} (a : A) : M A := ([], Ok a).

Definition bind {A B : Type} (m : M A) (k : A -> M B) : M B :=
  match m with
  | (t, Ok a) => let (t', r) := k a in (t ++ t', r)
  | (t, Raise e) => (t, Raise e)
  end.

Definition emit (e : event) : M unit := ([e], Ok tt).

Definition lift {A : Type} (r : result A) : M A := ([], r).

(** [try: m  except Exception as e: h e] *)
Definition try_except {A : Type} (m : M A) (h : exn -> M A) : M A :=
  match m with
  | (t, Ok a) => (t, Ok a)
  | (t, Raise e) => let (t', r) := h e in (t ++ t', r)
  end.

Definition trace {A : Type} (m : M A) : list event := fst m.
Definition outcome {A : Type} (m : M A) : result A := snd m.

Notation "x <- m ;; k" := (bind m (fun x => k))
  (at level 61, m at next level, right associativity).
Notation "m ;; k" := (bind m (fun _ => k))
  (at level 61, right associativity).

(** A triple-quoted template: a newline, then every line behind the
    indentation of the source, then the indentation before the closing
    quotes. *)
Definition template (indent : str) (lines : list str) : str :=
  concat (map (fun l => nl :: indent ++ l) lines) ++ nl :: indent.

Definition indent8 : str := repeat 32%N 8.
Definition indent24 : str := repeat 32%N 24.

Definition posts_prompt (event_details : str) : str :=
  template indent8
    [ cp "Create social media posts for LinkedIn, Twitter, and WhatsApp about the following event:";
      [];
      event_details;
      [];
      cp "The tone should be professional but with a touch of humor - nothing over the top.";
      [];
      cp "For each platform, follow these guidelines:";
      [];
      cp "1. LinkedIn: A professional post that showcases the event's value, around 1-2 paragraphs with appropriate hashtags.";
      [];
      cp "2. Twitter: A concise, engaging post under 280 characters that captures attention, with relevant hashtags.";
      [];
      cp "3. WhatsApp: A friendly, informative message that people would want to share with friends or colleagues.";
      [];
      cp "Format the response clearly with headers for each platform." ].

Definition image_prompt (indent event_details : str) : str :=
  template indent
    [ cp "Create a professional, visually appealing promotional image for this event:";
      [];
      event_details;
      [];
      cp "The image should be suitable for social media posts across LinkedIn, Twitter, and WhatsApp.";
      cp "It should be modern, clean, and engaging with elements that represent the event's theme." ].

(** Lines 11-38: the body of the [try] of [generate_social_media_posts]. *)
Definition generate_social_media_posts_try (event_details api_key : str)
  : M (option str) :=
  let prompt := posts_prompt event_details in
  emit (TextRequest prompt api_key) ;;
  lift (chat_completions_create P prompt api_key).

(** Lines 8-42. *)
Definition generate_social_media_posts (event_details api_key : str)
  : M (option str) :=
  try_except
    (generate_social_media_posts_try event_details api_key)
    (fun e =>
       emit (st_error (cp "Error generating posts: " ++ exn_str e)) ;;
       ret None).

(** Lines 47-74: the body of the [try] of [generate_event_image]. *)
Definition generate_event_image_try (event_details api_key : str)
  : M (option (Image P) * option str) :=
  let image_prompt := image_prompt indent8 event_details in
  emit (ImageRequest image_prompt api_key) ;;
  image_url <- lift (images_generate P image_prompt api_key) ;;
  emit (HttpGet image_url) ;;
  content <- lift (requests_get P image_url) ;;
  img <- lift (Image_open P content) ;;
  ret (Some img, Some image_url).

(** Lines 44-78. *)
Definition generate_event_image (event_details api_key : str)
  : M (option (Image P) * option str) :=
  try_except
    (generate_event_image_try event_details api_key)
    (fun e =>
       emit (st_error (cp "Error generating image: " ++ exn_str e)) ;;
       ret (None, None)).

(** Line 85: the link around the base64 text of the image. *)
Definition href_of (img_str filename text : str) : str :=
  cp "<a href=" ++ dquote :: cp "data:image/png;base64," ++ img_str
    ++ dquote :: cp " download=" ++ dquote :: filename ++ cp ".png"
    ++ dquote :: cp ">" ++ text ++ cp "</a>".

(** Lines 80-86. *)
Definition get_image_download_link (img : Image P) (filename text : str)
  : result str :=
  let* buffered := Image_save_png P img in
  let img_str := b64encode buffered in
  let href := href_of img_str filename text in
  Ok href.

(** Lines 143-147: the three texts of the tabs, [None] when the guard
    [len(sections) > 1] fails and no tab is made. *)
Definition section_texts (posts : str) : result (option (str * str * str)) :=
  let* sections := split posts (cp "LinkedIn:") in
  if 1 <? length sections then
    let* linkedin_text :=
      (let* s1 := index sections 1 in
       let* t := split s1 (cp "Twitter:") in
       let* t0 := index t 0 in
       Ok (strip t0)) in
    let* twitter_text :=
      (let* s1 := index sections 1 in
       let* t := split s1 (cp "Twitter:") in
       let* t1 := index t 1 in
       let* w := split t1 (cp "WhatsApp:") in
       let* w0 := index w 0 in
       Ok (strip w0)) in
    let* whatsapp_text :=
      (let* s1 := index sections 1 in
       let* w := split s1 (cp "WhatsApp:") in
       let* w1 := index w 1 in
       Ok (strip w1)) in
    Ok (Some (linkedin_text, twitter_text, whatsapp_text))
  else Ok None.

(** Lines 145-147 as a function of [sections[1]]. *)
Definition segment_texts (s1 : str) : result (option (str * str * str)) :=
  let* linkedin_text :=
    (let* t := split s1 (cp "Twitter:") in
     let* t0 := index t 0 in
     Ok (strip t0)) in
  let* twitter_text :=
    (let* t := split s1 (cp "Twitter:") in
     let* t1 := index t 1 in
     let* w := split t1 (cp "WhatsApp:") in
     let* w0 := index w 0 in
     Ok (strip w0)) in
  let* whatsapp_text :=
    (let* w := split s1 (cp "WhatsApp:") in
     let* w1 := index w 1 in
     Ok (strip w1)) in
  Ok (Some (linkedin_text, twitter_text, whatsapp_text)).

(** Lines 138-159: the left column. *)
Definition show_posts (posts : str) : M unit :=
  emit (Enter col1) ;;
  emit (st_subheader (cp "Social Media Posts")) ;;
  emit (st_markdown posts false) ;;
  texts <- lift (section_texts posts) ;;
  match texts with
  | Some (linkedin_text, twitter_text, whatsapp_text) =>
      emit (st_subheader (cp "Copy Individual Posts")) ;;
      emit (st_tabs [cp "LinkedIn"; cp "Twitter"; cp "WhatsApp"]) ;;
      emit (Enter (post_tab 0)) ;;
      emit (st_text_area (cp "LinkedIn Post") linkedin_text 150) ;;
      emit (Enter (post_tab 1)) ;;
      emit (st_text_area (cp "Twitter Post") twitter_text 100) ;;
      emit (Enter (post_tab 2)) ;;
      emit (st_text_area (cp "WhatsApp Post") whatsapp_text 150)
  | None => ret tt
  end.

(** Lines 161-177: the right column.  [st.image] and the saving of the
    image inside [get_image_download_link] are outside any [try]. *)
Definition show_image (image : Image P) (event_details : str) : M unit :=
  emit (Enter col2) ;;
  emit (st_subheader (cp "Promotional Image")) ;;
  lift (st_image_render P image) ;;
  emit (st_image image) ;;
  let download_filename := cp "event_promo_image" in
  link <- lift (get_image_download_link image download_filename
                  (cp "Download Image")) ;;
  emit (st_markdown link true) ;;
  emit (Enter (expander (cp "View the image prompt"))) ;;
  emit (st_write (image_prompt indent24 event_details)).

(** Lines 135-177: the branch [if posts and image:]. *)
Definition show_content (posts : option str) (image : option (Image P))
    (event_details : str) : M unit :=
  match posts, image with
  | Some posts, Some image =>
      if truthy posts then
        emit (st_success (cp "Content generated successfully!")) ;;
        show_posts posts ;;
        show_image image event_details
      else ret tt
  | _, _ => ret tt
  end.

(** Lines 120-177 of [main]; [api_key], [event_details] and
    [generate_btn] are what the three widgets returned. *)
Definition main (api_key event_details : str) (generate_btn : bool) : M unit :=
  if generate_btn then
    if negb (truthy api_key) then
      emit (st_error (cp "Please enter your OpenAI API key in the sidebar."))
    else if negb (truthy event_details)
            || (length (strip event_details) <? 10) then
      emit (st_error (cp "Please provide more details about your event."))
    else
      emit (st_columns [3; 2]) ;;
      emit (Enter (spinner (cp "Generating social media posts..."))) ;;
      posts <- generate_social_media_posts event_details api_key ;;
      emit (Enter (spinner (cp "Creating promotional image..."))) ;;
      r <- generate_event_image event_details api_key ;;
      let (image, image_url) := r in
      show_content posts image event_details
  else ret tt.

(** Events that put a generated result on the page. *)
Definition shows_result (e : event) : bool :=
  match e with
  | TextRequest _ _ | ImageRequest _ _ | HttpGet _ => false
  | Enter (spinner _) => false
  | st_columns _ | st_error _ => false
  | _ => true
  end.

Definition is_remote_call (e : event) : bool :=
  match e with
  | TextRequest _ _ | ImageRequest _ _ | HttpGet _ => true
  | _ => false
  end.

End Script.

Arguments TextRequest {P} prompt api_key.
Arguments ImageRequest {P} prompt api_key.
Arguments HttpGet {P} url.
Arguments Enter {P} c.
Arguments st_columns {P} spec.
Arguments st_error {P} msg.
Arguments st_success {P} msg.
Arguments st_subheader {P} msg.
Arguments st_markdown {P} body unsafe_allow_html.
Arguments st_tabs {P} names.
Arguments st_text_area {P} label value height.
Arguments st_image {P} img.
Arguments st_write {P} body.
Arguments ret {P A} a.
Arguments bind {P A B} m k.
Arguments emit {P} e.
Arguments lift {P A} r.
Arguments try_except {P A} m h.
Arguments trace {P A} m.
Arguments outcome {P A} m.
Arguments shows_result {P} e.
Arguments is_remote_call {P} e.

(** Kinds of events, for counting them in a trace. *)
Definition is_text_request {P : Provider} (e : event P) : bool :=
  match e with TextRequest _ _ => true | _ => false end.

Definition is_image_request {P : Provider} (e : event P) : bool :=
  match e with ImageRequest _ _ => true | _ => false end.

Definition is_http_get {P : Provider} (e : event P) : bool :=
  match e with HttpGet _ => true | _ => false end.

Definition is_st_error {P : Provider} (e : event P) : bool :=
  match e with st_error _ => true | _ => false end.

Definition count_events {P : Provider} (f : event P -> bool)
    (t : list (event P)) : nat :=
  length (filter f t).

End App.

(** ** Sample inputs *)

Module Examples.
Import Py App.

Definition posts_example : str :=
  cp "LinkedIn: Join us! #Event" ++ nl ::
  cp "Twitter: Come join! #Fun" ++ nl ::
  cp "WhatsApp: Hey, check this out!".

Definition posts_unlabelled : str :=
  cp "Here is some content without any labels.".

Definition posts_no_twitter : str := cp "LinkedIn: hello".

Definition posts_no_whatsapp : str :=
  cp "LinkedIn: a" ++ nl :: cp "Twitter: b".

Definition posts_upper : str :=
  cp "LinkedIn: a" ++ nl :: cp "TWITTER: b" ++ nl :: cp "WhatsApp: c".

Definition posts_title : str :=
  cp "LinkedIn: a" ++ nl :: cp "Twitter: b" ++ nl :: cp "WhatsApp: c".

(** A provider that is out of reach. *)
Definition offline : Provider := {|
  Image := unit;
  chat_completions_create := fun _ _ => Raise (ProviderFault (cp "Connection error."));
  images_generate := fun _ _ => Raise (ProviderFault (cp "Connection error."));
  requests_get := fun _ => Raise (ProviderFault (cp "Connection error."));
  Image_open := fun _ => Raise (ProviderFault (cp "cannot identify image file"));
  Image_save_png := fun _ => Raise (ProviderFault (cp "image file is truncated"));
  st_image_render := fun _ => Raise (ProviderFault (cp "image file is truncated"))
|}.

(** A provider that answers with the sample posts and a one-byte image. *)
Definition canned : Provider := {|
  Image := bytes;
  chat_completions_create := fun _ _ => Ok (Some posts_example);
  images_generate := fun _ _ => Ok (cp "https://example.org/promo.png");
  requests_get := fun _ => Ok [137%N];
  Image_open := fun b => Ok b;
  Image_save_png := fun b => Ok b;
  st_image_render := fun _ => Ok tt
|}.

(** A provider whose text service fails while its image service works,
    and one the other way round. *)
Definition text_down : Provider := {|
  Image := bytes;
  chat_completions_create := fun _ _ => Raise (ProviderFault (cp "Incorrect API key provided"));
  images_generate := images_generate canned;
  requests_get := requests_get canned;
  Image_open := Image_open canned;
  Image_save_png := Image_save_png canned;
  st_image_render := st_image_render canned
|}.

Definition image_down : Provider := {|
  Image := bytes;
  chat_completions_create := chat_completions_create canned;
  images_generate := fun _ _ => Raise (ProviderFault (cp "Rate limit exceeded"));
  requests_get := requests_get canned;
  Image_open := Image_open canned;
  Image_save_png := Image_save_png canned;
  st_image_render := st_image_render canned
|}.

Definition sample_key : str := cp "sk-test".
Definition sample_details : str := cp "Rust meetup, Friday 6pm, Berlin".
Definition spaced_details : str := cp "a b c d e f".

(** [len] of the characters of [s] that are not white space. *)
Definition non_whitespace (s : str) : nat :=
  length (filter (fun c => negb (isspace c)) s).

(** Providers whose text service answers without the Twitter header,
    and with an empty text. *)
Definition bare_reply : Provider := {|
  Image := bytes;
  chat_completions_create := fun _ _ => Ok (Some posts_no_twitter);
  images_generate := images_generate canned;
  requests_get := requests_get canned;
  Image_open := Image_open canned;
  Image_save_png := Image_save_png canned;
  st_image_render := st_image_render canned
|}.

Definition empty_reply : Provider := {|
  Image := bytes;
  chat_completions_create := fun _ _ => Ok (Some []);
  images_generate := images_generate canned;
  requests_get := requests_get canned;
  Image_open := Image_open canned;
  Image_save_png := Image_save_png canned;
  st_image_render := st_image_render canned
|}.

Definition plain_reply : Provider := {|
  Image := bytes;
  chat_completions_create := fun _ _ => Ok (Some posts_unlabelled);
  images_generate := images_generate canned;
  requests_get := requests_get canned;
  Image_open := Image_open canned;
  Image_save_png := Image_save_png canned;
  st_image_render := st_image_render canned
|}.

(** A reply whose LinkedIn section names the platforms in its text. *)
Definition posts_mentions : str :=
  cp "LinkedIn: see twitter: and LinkedIn too" ++ nl ::
  cp "Twitter: b" ++ nl :: cp "WhatsApp: c".

(** A reply with the WhatsApp section before the Twitter section. *)
Definition posts_swapped : str :=
  cp "LinkedIn: a" ++ nl :: cp "WhatsApp: b" ++ nl :: cp "Twitter: c".

End Examples.

(** ** Facts about [find], [split] and [strip] *)

Module PyFacts.
Import Py.

Lemma slice_of_refl (s : str) : slice_of s s.
Proof. exists [], []. now rewrite app_nil_r. Qed.

Lemma slice_of_trans (x y z : str) : slice_of x y -> slice_of y z -> slice_of x z.
Proof.
  intros [a [b ->]] [c [d ->]].
  exists (c ++ a), (b ++ d). now rewrite <- !app_assoc.
Qed.

Lemma startswith_iff (p s : str) :
  startswith p s = true <-> exists r, s = p ++ r.
Proof.
  revert s; induction p as [|a p IH]; intros s; simpl.
  - split; [intros _; now exists s | reflexivity].
  - destruct s as [|b s].
    + split; [discriminate | intros [r Hr]; discriminate].
    + rewrite andb_true_iff, N.eqb_eq, IH. split.
      * intros [-> [r ->]]. now exists r.
      * intros [r Hr]. injection Hr as -> ->. split; [reflexivity | now exists r].
Qed.

Lemma startswith_app (p s : str) : startswith p (p ++ s) = true.
Proof. apply startswith_iff. now exists s. Qed.

Lemma startswith_app_r (p x y : str) :
  startswith p x = true -> startswith p (x ++ y) = true.
Proof.
  rewrite !startswith_iff. intros [r ->]. exists (r ++ y). now rewrite app_assoc.
Qed.

Lemma startswith_nil_r (p : str) : p <> [] -> startswith p [] = false.
Proof. destruct p; [congruence | reflexivity]. Qed.

Lemma find_cons (sep : str) (c : char) (s : str) :
  find sep (c :: s) =
  if startswith sep (c :: s) then Some 0 else option_map S (find sep s).
Proof. reflexivity. Qed.

Lemma find_nil (sep : str) : sep <> [] -> find sep [] = None.
Proof. intros H. simpl. now rewrite (startswith_nil_r _ H). Qed.

(** Where [find] points, the separator stands. *)
Lemma find_some_split (sep s : str) (i : nat) :
  find sep s = Some i ->
  s = firstn i s ++ sep ++ skipn (i + length sep) s.
Proof.
  revert i; induction s as [|c s IH]; intros i.
  - simpl. destruct (startswith sep []) eqn:E; [|discriminate].
    intros [= <-]. apply startswith_iff in E as [r Hr].
    destruct sep; [|discriminate]. reflexivity.
  - rewrite find_cons. destruct (startswith sep (c :: s)) eqn:E.
    + intros [= <-]. apply startswith_iff in E as [r Hr].
      rewrite Hr at 1. simpl. rewrite Hr, skipn_app, Nat.sub_diag, skipn_all.
      reflexivity.
    + destruct (find sep s) as [j|] eqn:F; [|discriminate].
      intros [= <-]. simpl. f_equal. now apply IH.
Qed.

Lemma find_some_le (sep s : str) (i : nat) :
  find sep s = Some i -> i + length sep <= length s.
Proof.
  revert i; induction s as [|c s IH]; intros i.
  - simpl. destruct (startswith sep []) eqn:E; [|discriminate].
    intros [= <-]. apply startswith_iff in E as [r Hr].
    destruct sep; [simpl; lia | discriminate].
  - rewrite find_cons. destruct (startswith sep (c :: s)) eqn:E.
    + intros [= <-]. apply startswith_iff in E as [r Hr].
      rewrite Hr, length_app. lia.
    + destruct (find sep s) as [j|] eqn:F; [|discriminate].
      intros [= <-]. specialize (IH j eq_refl). simpl. lia.
Qed.

Lemma find_none_startswith (sep s : str) :
  find sep s = None -> startswith sep s = false.
Proof.
  destruct s; simpl; destruct (startswith sep _); congruence.
Qed.

(** No occurrence in a string, none in its slices. *)
Lemma find_none_suffix (sep a x : str) :
  find sep (a ++ x) = None -> find sep x = None.
Proof.
  induction a as [|c a IH]; [trivial|].
  simpl app. rewrite find_cons.
  destruct (startswith sep (c :: a ++ x)); [discriminate|].
  destruct (find sep (a ++ x)); [discriminate|]. intros _. now apply IH.
Qed.

Lemma find_none_prefix (sep x b : str) :
  find sep (x ++ b) = None -> find sep x = None.
Proof.
  induction x as [|c x IH].
  - intros H. apply find_none_startswith in H. simpl in *.
    destruct (startswith sep []) eqn:E; [|reflexivity].
    apply (startswith_app_r _ _ b) in E. simpl in E. congruence.
  - simpl app. rewrite !find_cons.
    destruct (startswith sep (c :: x)) eqn:E.
    + apply (startswith_app_r _ _ b) in E. simpl app in E. rewrite E. discriminate.
    + destruct (startswith sep (c :: x ++ b)); [discriminate|].
      destruct (find sep (x ++ b)); [discriminate|].
      intros _. now rewrite IH.
Qed.

Lemma find_none_slice (sep x s : str) :
  slice_of x s -> find sep s = None -> find sep x = None.
Proof.
  intros [a [b ->]] H.
  apply find_none_suffix in H. now apply find_none_prefix in H.
Qed.

(** The text before the first occurrence holds no occurrence. *)
Lemma find_firstn_none (sep s : str) (i : nat) :
  sep <> [] -> find sep s = Some i -> find sep (firstn i s) = None.
Proof.
  intros Hsep. revert i; induction s as [|c s IH]; intros i.
  - intros _. rewrite firstn_nil. now apply find_nil.
  - rewrite find_cons. destruct (startswith sep (c :: s)) eqn:E.
    + intros [= <-]. now apply find_nil.
    + destruct (find sep s) as [j|] eqn:F; [|discriminate].
      intros [= <-]. rewrite firstn_cons, find_cons.
      destruct (startswith sep (c :: firstn j s)) eqn:E'.
      * apply (startswith_app_r _ _ (skipn j s)) in E'.
        simpl app in E'. rewrite firstn_skipn in E'. congruence.
      * now rewrite (IH j eq_refl).
Qed.

(** An occurrence found behind a prefix is found without it. *)
Lemma find_app_some (sep x y : str) (j : nat) :
  find sep (x ++ y) = Some (length x + j) -> find sep y = Some j.
Proof.
  induction x as [|c x IH]; [trivial|].
  simpl app. rewrite find_cons. simpl length.
  destruct (startswith sep (c :: x ++ y)); [discriminate|].
  destruct (find sep (x ++ y)) as [k|]; [|discriminate].
  intros [= ->]. now apply IH.
Qed.

(** Passing a matched separator. *)
Lemma split_scan_skip (sep : str) (k : nat) (cur s : str) :
  k <= length s ->
  split_scan sep k cur s = split_scan sep 0 cur (skipn k s).
Proof.
  revert k; induction s as [|c s IH]; intros k Hk.
  - destruct k; [reflexivity | simpl in Hk; lia].
  - destruct k as [|k]; [reflexivity|].
    simpl in Hk. simpl. apply IH. lia.
Qed.

(** Without an occurrence, [split] returns the string whole. *)
Lemma split_scan_none (sep cur s : str) :
  find sep s = None -> split_scan sep 0 cur s = [cur ++ s].
Proof.
  revert cur; induction s as [|c s IH]; intros cur.
  - intros _. simpl. now rewrite app_nil_r.
  - rewrite find_cons. destruct (startswith sep (c :: s)) eqn:E; [discriminate|].
    destruct (find sep s); [discriminate|]. intros _.
    cbn [split_scan]. rewrite E, IH by reflexivity. now rewrite <- app_assoc.
Qed.

(** With one, it cuts at the first and goes on behind it. *)
Lemma split_scan_some (sep cur s : str) (i : nat) :
  sep <> [] -> find sep s = Some i ->
  split_scan sep 0 cur s =
  (cur ++ firstn i s) :: split_scan sep 0 [] (skipn (i + length sep) s).
Proof.
  intros Hsep. revert cur i; induction s as [|c s IH]; intros cur i.
  - now rewrite find_nil.
  - rewrite find_cons. destruct (startswith sep (c :: s)) eqn:E.
    + intros [= <-]. cbn [split_scan]. rewrite E. simpl firstn. rewrite app_nil_r.
      f_equal. destruct sep as [|a sep]; [congruence|].
      apply startswith_iff in E as [r Hr]. injection Hr as _ ->.
      replace (length (a :: sep) - 1) with (length sep) by (simpl; lia).
      replace (0 + length (a :: sep)) with (S (length sep)) by (simpl; lia).
      rewrite skipn_cons.
      apply split_scan_skip. rewrite length_app. lia.
    + destruct (find sep s) as [j|] eqn:F; [|discriminate].
      intros [= <-]. cbn [split_scan]. rewrite E.
      rewrite (IH (cur ++ [c]) j eq_refl). simpl. now rewrite <- app_assoc.
Qed.

Lemma split_scan_first (sep a b : str) :
  sep <> [] -> find sep (a ++ sep ++ b) = Some (length a) ->
  split_scan sep 0 [] (a ++ sep ++ b) = a :: split_scan sep 0 [] b.
Proof.
  intros Hsep H. rewrite (split_scan_some _ [] _ _ Hsep H). simpl app.
  rewrite firstn_app, firstn_all, Nat.sub_diag, firstn_0, app_nil_r.
  rewrite app_assoc, skipn_app, <- length_app, skipn_all, Nat.sub_diag.
  reflexivity.
Qed.

(** No piece of a split holds the separator, and every piece is a
    slice of the string. *)
Lemma split_scan_pieces (sep : str) (n : nat) (s : str) :
  sep <> [] -> length s <= n ->
  Forall (fun p => find sep p = None /\ slice_of p s) (split_scan sep 0 [] s).
Proof.
  intros Hsep. revert s; induction n as [|n IH]; intros s Hn.
  - destruct s; [|simpl in Hn; lia]. simpl. constructor; [|constructor].
    split; [now apply find_nil | apply slice_of_refl].
  - destruct (find sep s) as [i|] eqn:F.
    + rewrite (split_scan_some _ [] _ _ Hsep F). simpl app.
      pose proof (find_some_split _ _ _ F) as Hs.
      pose proof (find_some_le _ _ _ F) as Hle.
      constructor.
      * split; [now apply find_firstn_none|].
        exists [], (sep ++ skipn (i + length sep) s). exact Hs.
      * assert (Hlen : length (skipn (i + length sep) s) <= n).
        { rewrite length_skipn. destruct sep; [congruence|]. simpl in *. lia. }
        specialize (IH _ Hlen). rewrite Forall_forall in *.
        intros p Hp. destruct (IH p Hp) as [Hf Hsl]. split; [exact Hf|].
        apply (slice_of_trans _ _ _ Hsl).
        exists (firstn i s ++ sep), []. rewrite app_nil_r, <- app_assoc. exact Hs.
    + rewrite (split_scan_none _ [] _ F). simpl. constructor; [|constructor].
      split; [exact F | apply slice_of_refl].
Qed.

Lemma split_pieces (s sep : str) (l : list str) (i : nat) (p : str) :
  split s sep = Ok l -> nth_error l i = Some p ->
  find sep p = None /\ slice_of p s.
Proof.
  unfold split. destruct sep as [|c r]; [discriminate|].
  intros [= <-] Hp. apply nth_error_In in Hp.
  assert (Hsep : c :: r <> []) by discriminate.
  pose proof (split_scan_pieces _ (length s) s Hsep (le_n _)) as H.
  rewrite Forall_forall in H. now apply H.
Qed.

(** [strip] returns a slice. *)
Lemma lstrip_suffix (s : str) : exists a, s = a ++ lstrip s.
Proof.
  induction s as [|c s [a IH]]; [now exists []|].
  simpl. destruct (isspace c).
  - exists (c :: a). simpl. now f_equal.
  - now exists [].
Qed.

Lemma strip_slice (s : str) : slice_of (strip s) s.
Proof.
  unfold strip, rstrip.
  destruct (lstrip_suffix s) as [a Ha].
  destruct (lstrip_suffix (rev (lstrip s))) as [b Hb].
  apply (f_equal (@rev char)) in Hb. rewrite rev_involutive, rev_app_distr in Hb.
  exists a, (rev b). now rewrite <- Hb.
Qed.

Lemma split_ok (s sep : str) :
  sep <> [] -> split s sep = Ok (split_scan sep 0 [] s).
Proof. destruct sep; [congruence | reflexivity]. Qed.

Lemma split_not_found (s sep : str) :
  sep <> [] -> find sep s = None -> split s sep = Ok [s].
Proof.
  intros Hsep F. now rewrite split_ok, (split_scan_none _ [] _ F).
Qed.

Lemma split_scan_nonempty (sep : str) (k : nat) (cur s : str) :
  exists p l, split_scan sep k cur s = p :: l.
Proof.
  revert k cur; induction s as [|c s IH]; intros k cur; simpl.
  - now exists cur, [].
  - destruct k; [|apply IH]. destruct (startswith sep (c :: s)).
    + now exists cur, (split_scan sep (length sep - 1) [] s).
    + apply IH.
Qed.

(** When the separator occurs, [split] returns at least two pieces:
    the text before the first occurrence, then the text up to the next
    one (or to the end). *)
Lemma split_found (s sep : str) (i : nat) :
  sep <> [] -> find sep s = Some i ->
  exists s1 tl,
    split s sep = Ok (firstn i s :: s1 :: tl) /\
    split (skipn (i + length sep) s) sep = Ok (s1 :: tl).
Proof.
  intros Hsep F. rewrite !split_ok by assumption.
  rewrite (split_scan_some _ [] _ _ Hsep F). simpl app.
  destruct (split_scan_nonempty sep 0 [] (skipn (i + length sep) s)) as [s1 [tl E]].
  exists s1, tl. now rewrite E.
Qed.

(** Counting occurrences. *)
Lemma occurrences_cons (sep : str) (c : char) (s : str) :
  occurrences sep (c :: s) =
  (if startswith sep (c :: s) then 1 else 0) + occurrences sep s.
Proof. reflexivity. Qed.

Lemma occurrences_zero (sep s : str) :
  occurrences sep s = 0 -> find sep s = None.
Proof.
  induction s as [|c s IH].
  - simpl. destruct (startswith sep []); [discriminate | reflexivity].
  - rewrite occurrences_cons, find_cons.
    destruct (startswith sep (c :: s)); [discriminate|].
    simpl. intros H. now rewrite IH.
Qed.

Lemma occurrences_suffix (sep x z : str) :
  occurrences sep z <= occurrences sep (x ++ z).
Proof.
  induction x as [|c x IH]; [reflexivity|].
  simpl app. rewrite occurrences_cons. lia.
Qed.

Lemma occurrences_here (sep y : str) :
  sep <> [] -> 1 + occurrences sep y <= occurrences sep (sep ++ y).
Proof.
  intros Hsep. destruct sep as [|a sep]; [congruence|].
  change ((a :: sep) ++ y) with (a :: sep ++ y).
  rewrite occurrences_cons.
  change (a :: sep ++ y) with ((a :: sep) ++ y). rewrite startswith_app.
  pose proof (occurrences_suffix (a :: sep) sep y). lia.
Qed.

(** A separator that occurs once is found where it stands, and not
    behind. *)
Lemma occurs_once (sep x y : str) :
  sep <> [] -> occurrences sep (x ++ sep ++ y) <= 1 ->
  find sep (x ++ sep ++ y) = Some (length x) /\ find sep y = None.
Proof.
  intros Hsep. induction x as [|c x IH]; intros H.
  - pose proof (occurrences_here sep y Hsep) as H1. simpl app in *. split.
    + destruct sep as [|a sep]; [congruence|].
      change ((a :: sep) ++ y) with (a :: sep ++ y). rewrite find_cons.
      change (a :: sep ++ y) with ((a :: sep) ++ y). now rewrite startswith_app.
    + apply occurrences_zero. lia.
  - simpl app in *. rewrite occurrences_cons in H.
    pose proof (occurrences_here sep y Hsep) as H1.
    pose proof (occurrences_suffix sep x (sep ++ y)) as H2.
    rewrite find_cons.
    destruct (startswith sep (c :: x ++ sep ++ y)); [lia|].
    destruct IH as [IH1 IH2]; [lia|]. rewrite IH1. now split.
Qed.

Lemma split_once (sep x y : str) :
  sep <> [] -> occurrences sep (x ++ sep ++ y) <= 1 ->
  split (x ++ sep ++ y) sep = Ok [x; y].
Proof.
  intros Hsep H. destruct (occurs_once _ _ _ Hsep H) as [F1 F2].
  rewrite split_ok by assumption.
  rewrite (split_scan_first _ _ _ Hsep F1), (split_scan_none _ [] _ F2).
  reflexivity.
Qed.

End PyFacts.

(** ** The section extraction of lines 143-147 *)

Module Sections.
Import Py PyFacts App.

Local Abbreviation LinkedIn := (cp "LinkedIn:").
Local Abbreviation Twitter := (cp "Twitter:").
Local Abbreviation WhatsApp := (cp "WhatsApp:").

Lemma LinkedIn_ne : LinkedIn <> [].
Proof. discriminate. Qed.

Lemma Twitter_ne : Twitter <> [].
Proof. discriminate. Qed.

Lemma WhatsApp_ne : WhatsApp <> [].
Proof. discriminate. Qed.

Lemma section_texts_segment (posts p s1 : str) (tl : list str) :
  split posts LinkedIn = Ok (p :: s1 :: tl) ->
  section_texts posts = segment_texts s1.
Proof.
  intros H. unfold section_texts. rewrite H. reflexivity.
Qed.

Lemma section_texts_no_linkedin (posts : str) :
  find LinkedIn posts = None -> section_texts posts = Ok None.
Proof.
  intros H. unfold section_texts.
  rewrite (split_not_found _ _ LinkedIn_ne H). reflexivity.
Qed.

(** With the first label found, [sections[1]] exists and is a slice of
    the text free of that label. *)
Lemma section_texts_linkedin (posts : str) (i : nat) :
  find LinkedIn posts = Some i ->
  exists s1,
    section_texts posts = segment_texts s1 /\
    slice_of s1 posts /\ find LinkedIn s1 = None.
Proof.
  intros F.
  destruct (split_found _ _ _ LinkedIn_ne F) as [s1 [tl [E _]]].
  exists s1. split; [exact (section_texts_segment _ _ _ _ E)|].
  apply and_comm, (split_pieces _ _ _ 1 s1 E). reflexivity.
Qed.

Lemma segment_no_twitter (s1 : str) :
  find Twitter s1 = None -> segment_texts s1 = Raise IndexError.
Proof.
  intros F. unfold segment_texts.
  rewrite (split_not_found _ _ Twitter_ne F). reflexivity.
Qed.

Lemma segment_no_whatsapp (s1 : str) :
  find WhatsApp s1 = None -> segment_texts s1 = Raise IndexError.
Proof.
  intros F. unfold segment_texts.
  rewrite (split_not_found _ _ WhatsApp_ne F).
  destruct (find Twitter s1) as [i|] eqn:FT.
  - destruct (split_found _ _ _ Twitter_ne FT) as [t1 [tl [E _]]].
    rewrite E. cbn [rbind index nth_error].
    assert (F1 : find WhatsApp t1 = None).
    { refine (find_none_slice _ _ _ _ F).
      apply (split_pieces _ _ _ 1 t1 E). reflexivity. }
    rewrite (split_not_found _ _ WhatsApp_ne F1). reflexivity.
  - rewrite (split_not_found _ _ Twitter_ne FT). reflexivity.
Qed.

(** On a text that holds each label once, in order, the extraction
    returns the three trimmed bodies. *)
Lemma section_texts_in_order (pre a b c : str) :
  let posts := pre ++ LinkedIn ++ a ++ Twitter ++ b ++ WhatsApp ++ c in
  occurrences LinkedIn posts = 1 ->
  occurrences Twitter posts = 1 ->
  occurrences WhatsApp posts = 1 ->
  section_texts posts = Ok (Some (strip a, strip b, strip c)).
Proof.
  intros posts HL HT HW.
  set (m := a ++ Twitter ++ b ++ WhatsApp ++ c) in *.
  assert (EL : split posts LinkedIn = Ok [pre; m]).
  { apply split_once; [exact LinkedIn_ne | fold m; fold posts; lia]. }
  rewrite (section_texts_segment _ _ _ _ EL).
  assert (HTm : occurrences Twitter m <= 1).
  { rewrite <- HT. unfold posts. rewrite app_assoc. apply occurrences_suffix. }
  assert (HWm : occurrences WhatsApp m <= 1).
  { rewrite <- HW. unfold posts. rewrite app_assoc. apply occurrences_suffix. }
  assert (HWb : occurrences WhatsApp (b ++ WhatsApp ++ c) <= 1).
  { etransitivity; [|exact HWm]. unfold m.
    rewrite (app_assoc a Twitter). apply occurrences_suffix. }
  assert (ET : split m Twitter = Ok [a; b ++ WhatsApp ++ c]).
  { apply split_once; [exact Twitter_ne | exact HTm]. }
  assert (EWb : split (b ++ WhatsApp ++ c) WhatsApp = Ok [b; c]).
  { apply split_once; [exact WhatsApp_ne | exact HWb]. }
  assert (EWm : split m WhatsApp = Ok [a ++ Twitter ++ b; c]).
  { unfold m in *.
    replace (a ++ Twitter ++ b ++ WhatsApp ++ c)
      with ((a ++ Twitter ++ b) ++ WhatsApp ++ c) in *
      by now rewrite <- !app_assoc.
    apply split_once; [exact WhatsApp_ne | exact HWm]. }
  unfold segment_texts. rewrite ET, EWm. cbn [rbind index nth_error].
  rewrite EWb. reflexivity.
Qed.

(** What a successful extraction went through. *)
Lemma segment_texts_inv (s1 l t w : str) :
  segment_texts s1 = Ok (Some (l, t, w)) ->
  exists ts t0 t1 ws w0 ws' w1,
    split s1 Twitter = Ok ts /\ nth_error ts 0 = Some t0 /\
    nth_error ts 1 = Some t1 /\
    split t1 WhatsApp = Ok ws /\ nth_error ws 0 = Some w0 /\
    split s1 WhatsApp = Ok ws' /\ nth_error ws' 1 = Some w1 /\
    l = strip t0 /\ t = strip w0 /\ w = strip w1.
Proof.
  unfold segment_texts, index.
  destruct (split s1 Twitter) as [ts|] eqn:ET; [|discriminate].
  cbn [rbind].
  destruct (nth_error ts 0) as [t0|] eqn:E0; [|discriminate].
  cbn [rbind].
  destruct (nth_error ts 1) as [t1|] eqn:E1; [|discriminate].
  cbn [rbind].
  destruct (split t1 WhatsApp) as [ws|] eqn:EW; [|discriminate].
  cbn [rbind].
  destruct (nth_error ws 0) as [w0|] eqn:E2; [|discriminate].
  cbn [rbind].
  destruct (split s1 WhatsApp) as [ws'|] eqn:EW'; [|discriminate].
  cbn [rbind].
  destruct (nth_error ws' 1) as [w1|] eqn:E3; [|discriminate].
  cbn [rbind].
  intros [= <- <- <-].
  exists ts, t0, t1, ws, w0, ws', w1. repeat split; assumption.
Qed.

(** *** The claims about the extraction *)

(** C1, where the code departs from it: a text that holds
    ['LinkedIn:'] but no ['Twitter:'] makes the extraction raise
    [IndexError] instead of yielding a result. *)
Theorem missing_twitter_raises (posts : str) :
  find LinkedIn posts <> None -> find Twitter posts = None ->
  section_texts posts = Raise IndexError.
Proof.
  intros HL HT. destruct (find LinkedIn posts) as [i|] eqn:F; [|congruence].
  destruct (section_texts_linkedin _ _ F) as [s1 [E [Hs _]]].
  rewrite E. apply segment_no_twitter. exact (find_none_slice _ _ _ Hs HT).
Qed.

Lemma missing_twitter_raises_witness :
  section_texts Examples.posts_no_twitter = Raise IndexError.
Proof.
  apply missing_twitter_raises; [vm_compute; discriminate | reflexivity].
Defined.

(** C2, where the code departs from it: a text that holds
    ['LinkedIn:'] but no ['WhatsApp:'], with or without ['Twitter:'],
    makes the extraction raise [IndexError]; no text is returned for
    any platform. *)
Theorem missing_whatsapp_raises (posts : str) :
  find LinkedIn posts <> None -> find WhatsApp posts = None ->
  section_texts posts = Raise IndexError.
Proof.
  intros HL HW. destruct (find LinkedIn posts) as [i|] eqn:F; [|congruence].
  destruct (section_texts_linkedin _ _ F) as [s1 [E [Hs _]]].
  rewrite E. apply segment_no_whatsapp. exact (find_none_slice _ _ _ Hs HW).
Qed.

Lemma missing_whatsapp_raises_witness :
  section_texts Examples.posts_no_whatsapp = Raise IndexError.
Proof.
  apply missing_whatsapp_raises; [vm_compute; discriminate | reflexivity].
Defined.

(** C3 as the claim states it fails: with the second label written
    [TWITTER:] the result differs from the one for [Twitter:]. *)
Lemma label_case_matters :
  section_texts Examples.posts_upper <> section_texts Examples.posts_title.
Proof. vm_compute. discriminate. Qed.

(** C3, amended: labels are matched literally, in the spelling
    ['LinkedIn:'], ['Twitter:'], ['WhatsApp:'] with the colon.  On a
    text that holds each of them once, in this order, the three trimmed
    bodies are returned whatever stands before a label (heading or
    bold markers, white space); a text that lacks one of the three
    literal labels, however else it spells it, yields no three
    texts. *)
Theorem label_matching_literal :
  (forall pre a b c : str,
     let posts := pre ++ LinkedIn ++ a ++ Twitter ++ b ++ WhatsApp ++ c in
     occurrences LinkedIn posts = 1 ->
     occurrences Twitter posts = 1 ->
     occurrences WhatsApp posts = 1 ->
     section_texts posts = Ok (Some (strip a, strip b, strip c))) /\
  (forall (posts : str) (r : str * str * str),
     find LinkedIn posts = None \/ find Twitter posts = None \/
     find WhatsApp posts = None ->
     section_texts posts <> Ok (Some r)).
Proof.
  split; [exact section_texts_in_order|].
  intros posts r H E.
  destruct (find LinkedIn posts) as [i|] eqn:F.
  - destruct (section_texts_linkedin _ _ F) as [s1 [E1 [Hs _]]].
    rewrite E1 in E. destruct H as [H | [H | H]]; [discriminate | |].
    + rewrite (segment_no_twitter _ (find_none_slice _ _ _ Hs H)) in E.
      discriminate.
    + rewrite (segment_no_whatsapp _ (find_none_slice _ _ _ Hs H)) in E.
      discriminate.
  - rewrite (section_texts_no_linkedin _ F) in E. discriminate.
Qed.

Lemma label_matching_literal_witness :
  section_texts
    (cp "## " ++ LinkedIn ++ cp " a " ++ nl :: cp "**" ++ Twitter
       ++ cp "** b" ++ [nl; nl] ++ WhatsApp ++ cp "  c ")
  = Ok (Some (strip (cp " a " ++ nl :: cp "**"),
              strip (cp "** b" ++ [nl; nl]),
              strip (cp "  c "))) /\
  section_texts Examples.posts_upper
  <> Ok (Some (cp "a", cp "b", cp "c")).
Proof.
  destruct label_matching_literal as [H1 H2]. split.
  - apply (H1 (cp "## ") (cp " a " ++ nl :: cp "**") (cp "** b" ++ [nl; nl])
              (cp "  c ")); reflexivity.
  - apply H2. right; left. reflexivity.
Defined.

(** C4 as the claim states it fails: the LinkedIn text can hold the
    word [LinkedIn], the label of its own section, and the header of
    the next section in another capitalisation. *)
Lemma text_holds_label_words :
  section_texts Examples.posts_mentions =
  Ok (Some (cp "see twitter: and LinkedIn too", cp "b", cp "c")) /\
  find (cp "LinkedIn") (cp "see twitter: and LinkedIn too") <> None /\
  find (cp "twitter:") (cp "see twitter: and LinkedIn too") <> None.
Proof. repeat split; vm_compute; discriminate. Qed.

(** C4, amended: no extracted text holds the literal header the code
    splits on, in its exact spelling with the colon, of its own
    section or of the next platform in the order LinkedIn, Twitter,
    WhatsApp: the LinkedIn text holds neither ['LinkedIn:'] nor
    ['Twitter:'], the Twitter text neither ['Twitter:'] nor
    ['WhatsApp:'], the WhatsApp text no ['WhatsApp:']. *)
Theorem texts_exclude_labels (posts linkedin_text twitter_text whatsapp_text : str) :
  section_texts posts = Ok (Some (linkedin_text, twitter_text, whatsapp_text)) ->
  (find LinkedIn linkedin_text = None /\ find Twitter linkedin_text = None) /\
  (find Twitter twitter_text = None /\ find WhatsApp twitter_text = None) /\
  find WhatsApp whatsapp_text = None.
Proof.
  intros E. destruct (find LinkedIn posts) as [i|] eqn:F.
  2: { rewrite (section_texts_no_linkedin _ F) in E. discriminate. }
  destruct (section_texts_linkedin _ _ F) as [s1 [E1 [_ HL]]].
  rewrite E1 in E.
  destruct (segment_texts_inv _ _ _ _ E)
    as (ts & t0 & t1 & ws & w0 & ws' & w1 &
        ET & E0 & E1' & EW & E2 & EW' & E3 & -> & -> & ->).
  destruct (split_pieces _ _ _ _ _ ET E0) as [T0 S0].
  destruct (split_pieces _ _ _ _ _ ET E1') as [T1 S1].
  destruct (split_pieces _ _ _ _ _ EW E2) as [W0 S2].
  destruct (split_pieces _ _ _ _ _ EW' E3) as [W1 S3].
  repeat split.
  - apply (find_none_slice _ _ _ (strip_slice t0)).
    exact (find_none_slice _ _ _ S0 HL).
  - exact (find_none_slice _ _ _ (strip_slice t0) T0).
  - apply (find_none_slice _ _ _ (strip_slice w0)).
    exact (find_none_slice _ _ _ S2 T1).
  - exact (find_none_slice _ _ _ (strip_slice w0) W0).
  - exact (find_none_slice _ _ _ (strip_slice w1) W1).
Qed.

Lemma texts_exclude_labels_witness :
  (find LinkedIn (cp "Join us! #Event") = None /\
   find Twitter (cp "Join us! #Event") = None) /\
  (find Twitter (cp "Come join! #Fun") = None /\
   find WhatsApp (cp "Come join! #Fun") = None) /\
  find WhatsApp (cp "Hey, check this out!") = None.
Proof.
  apply (texts_exclude_labels Examples.posts_example). reflexivity.
Defined.

(** C5: on the sample text the extraction returns the three bodies
    ["Join us! #Event"], ["Come join! #Fun"], ["Hey, check this out!"],
    without white space around them. *)
Theorem sample_posts_extracted :
  section_texts Examples.posts_example =
  Ok (Some (cp "Join us! #Event", cp "Come join! #Fun",
            cp "Hey, check this out!")).
Proof. reflexivity. Qed.

(** C10: the text before the first ['LinkedIn:'] has no part in the
    result, and when ['LinkedIn:'] occurs again, [sections[1]] is the
    text between the first and the second occurrence and the three
    texts are taken from it alone. *)
Theorem linkedin_segment_only :
  (forall pre x : str,
     find LinkedIn (pre ++ LinkedIn ++ x) = Some (length pre) ->
     section_texts (pre ++ LinkedIn ++ x) = section_texts (LinkedIn ++ x)) /\
  (forall pre mid rest : str,
     let posts := pre ++ LinkedIn ++ mid ++ LinkedIn ++ rest in
     find LinkedIn posts = Some (length pre) ->
     find LinkedIn (mid ++ LinkedIn ++ rest) = Some (length mid) ->
     (exists tl, split posts LinkedIn = Ok (pre :: mid :: tl)) /\
     section_texts posts = segment_texts mid).
Proof.
  split.
  - intros pre x F.
    assert (F0 : find LinkedIn ([] ++ LinkedIn ++ x) = Some (length (@nil char))).
    { simpl app. apply (find_app_some _ pre). now rewrite Nat.add_0_r. }
    destruct (split_scan_nonempty LinkedIn 0 [] x) as [s1 [tl Ex]].
    assert (E1 : split (pre ++ LinkedIn ++ x) LinkedIn = Ok (pre :: s1 :: tl)).
    { rewrite split_ok by exact LinkedIn_ne.
      now rewrite (split_scan_first _ _ _ LinkedIn_ne F), Ex. }
    assert (E2 : split (LinkedIn ++ x) LinkedIn = Ok ([] :: s1 :: tl)).
    { rewrite split_ok by exact LinkedIn_ne.
      change (LinkedIn ++ x) with ([] ++ LinkedIn ++ x).
      now rewrite (split_scan_first _ _ _ LinkedIn_ne F0), Ex. }
    now rewrite (section_texts_segment _ _ _ _ E1),
                (section_texts_segment _ _ _ _ E2).
  - intros pre mid rest posts F1 F2.
    assert (E : split posts LinkedIn
                = Ok (pre :: mid :: split_scan LinkedIn 0 [] rest)).
    { rewrite split_ok by exact LinkedIn_ne. unfold posts.
      now rewrite (split_scan_first _ _ _ LinkedIn_ne F1),
                  (split_scan_first _ _ _ LinkedIn_ne F2). }
    split; [eexists; exact E|]. exact (section_texts_segment _ _ _ _ E).
Qed.

Lemma linkedin_segment_only_witness :
  section_texts (cp "Sure! " ++ LinkedIn ++ cp " x")
  = section_texts (LinkedIn ++ cp " x") /\
  section_texts (cp "Sure! " ++ LinkedIn ++ cp " a Twitter: b WhatsApp: c "
                   ++ LinkedIn ++ cp " again")
  = segment_texts (cp " a Twitter: b WhatsApp: c ").
Proof.
  destruct linkedin_segment_only as [H1 H2]. split.
  - apply (H1 (cp "Sure! ") (cp " x")). reflexivity.
  - apply (H2 (cp "Sure! ") (cp " a Twitter: b WhatsApp: c ") (cp " again"));
      reflexivity.
Defined.

End Sections.

(** ** The page: validation, the two remote calls, the display *)

Module Page.
Import Py PyFacts App.

Section Runs.

Variable P : Provider.

Lemma bind_Ok {A B : Type} (t : list (event P)) (a : A) (k : A -> M P B) :
  bind (t, Ok a) k = (t ++ trace (k a), outcome (k a)).
Proof. unfold bind, trace, outcome. now destruct (k a). Qed.

Lemma bind_Raise {A B : Type} (t : list (event P)) (e : exn) (k : A -> M P B) :
  bind (t, Raise e) k = (t, Raise e).
Proof. reflexivity. Qed.

Lemma emit_bind {B : Type} (e : event P) (k : unit -> M P B) :
  bind (emit e) k = (e :: trace (k tt), outcome (k tt)).
Proof. unfold emit. now rewrite bind_Ok. Qed.

Lemma pair_trace_outcome {A : Type} (m : M P A) : m = (trace m, outcome m).
Proof. now destruct m. Qed.

(** The text helper: the request goes out, and whatever the provider
    does the helper returns. *)
Lemma posts_returned (event_details api_key : str) (v : option str) :
  chat_completions_create P (posts_prompt event_details) api_key = Ok v ->
  generate_social_media_posts P event_details api_key =
  ([TextRequest (posts_prompt event_details) api_key], Ok v).
Proof.
  intros H. unfold generate_social_media_posts, generate_social_media_posts_try.
  rewrite emit_bind. unfold lift, trace, outcome, try_except, fst, snd.
  now rewrite H.
Qed.

Lemma posts_fault_caught (event_details api_key : str) (e : exn) :
  chat_completions_create P (posts_prompt event_details) api_key = Raise e ->
  generate_social_media_posts P event_details api_key =
  ([TextRequest (posts_prompt event_details) api_key;
    st_error (cp "Error generating posts: " ++ exn_str e)], Ok None).
Proof.
  intros H. unfold generate_social_media_posts, generate_social_media_posts_try.
  rewrite emit_bind. unfold lift, trace, outcome, try_except, fst, snd.
  rewrite H. rewrite emit_bind. reflexivity.
Qed.

(** The image helper likewise. *)
Lemma image_try_trace (event_details api_key : str) :
  exists t,
    trace (generate_event_image_try P event_details api_key) =
    ImageRequest (image_prompt indent8 event_details) api_key :: t /\
    Forall (fun e => shows_result e = false) t.
Proof.
  unfold generate_event_image_try. rewrite emit_bind. unfold lift.
  destruct (images_generate P _ api_key) as [url|e].
  2: { exists []. split; [reflexivity | constructor]. }
  rewrite bind_Ok, emit_bind.
  destruct (requests_get P url) as [content|e].
  2: { exists [HttpGet url]. split; [reflexivity | repeat constructor]. }
  rewrite bind_Ok.
  destruct (Image_open P content) as [img|e];
    (exists [HttpGet url]; split; [reflexivity | repeat constructor]).
Qed.

Lemma image_returned (event_details api_key : str)
    (v : option (Image P) * option str) :
  outcome (generate_event_image_try P event_details api_key) = Ok v ->
  generate_event_image P event_details api_key =
  (trace (generate_event_image_try P event_details api_key), Ok v).
Proof.
  unfold generate_event_image.
  destruct (generate_event_image_try P event_details api_key) as [t [w|e]];
    simpl; congruence.
Qed.

Lemma image_fault_caught (event_details api_key : str) (e : exn) :
  outcome (generate_event_image_try P event_details api_key) = Raise e ->
  generate_event_image P event_details api_key =
  (trace (generate_event_image_try P event_details api_key)
     ++ [st_error (cp "Error generating image: " ++ exn_str e)],
   Ok (None, None)).
Proof.
  unfold generate_event_image.
  destruct (generate_event_image_try P event_details api_key) as [t [w|e']];
    [discriminate|].
  intros [= ->]. unfold try_except. rewrite emit_bind. reflexivity.
Qed.

(** Both helpers always return, with a trace that shows no result. *)
Lemma posts_total (event_details api_key : str) :
  exists t v,
    generate_social_media_posts P event_details api_key =
    (TextRequest (posts_prompt event_details) api_key :: t, Ok v) /\
    Forall (fun e => shows_result e = false) t.
Proof.
  destruct (chat_completions_create P (posts_prompt event_details) api_key)
    as [v|e] eqn:E.
  - exists [], v. rewrite (posts_returned _ _ _ E). split; [reflexivity | constructor].
  - eexists _, None. rewrite (posts_fault_caught _ _ _ E).
    split; [reflexivity | repeat constructor].
Qed.

Lemma image_total (event_details api_key : str) :
  exists t v,
    generate_event_image P event_details api_key =
    (ImageRequest (image_prompt indent8 event_details) api_key :: t, Ok v) /\
    Forall (fun e => shows_result e = false) t.
Proof.
  destruct (image_try_trace event_details api_key) as [t [Ht Hf]].
  destruct (outcome (generate_event_image_try P event_details api_key))
    as [v|e] eqn:E.
  - exists t, v. rewrite (image_returned _ _ _ E), Ht. now split.
  - eexists (t ++ [_]), (None, None). rewrite (image_fault_caught _ _ _ E), Ht.
    split; [reflexivity|]. apply Forall_app. split; [exact Hf | repeat constructor].
Qed.

Lemma strip_nil_length (s : str) :
  10 <= length (strip s) -> truthy s = true.
Proof. destruct s; [simpl; lia | reflexivity]. Qed.

(** A run that passes validation. *)
Lemma main_valid (api_key event_details : str)
    (t1 t2 : list (event P)) (posts : option str)
    (image : option (Image P)) (image_url : option str) :
  api_key <> [] -> 10 <= length (strip event_details) ->
  generate_social_media_posts P event_details api_key = (t1, Ok posts) ->
  generate_event_image P event_details api_key = (t2, Ok (image, image_url)) ->
  main P api_key event_details true =
  (st_columns [3; 2]
     :: Enter (spinner (cp "Generating social media posts...")) :: t1
     ++ Enter (spinner (cp "Creating promotional image...")) :: t2
     ++ trace (show_content P posts image event_details),
   outcome (show_content P posts image event_details)).
Proof.
  intros Hk Hd E1 E2. unfold main.
  destruct api_key as [|c k]; [congruence|]. cbn [truthy negb].
  rewrite (strip_nil_length _ Hd). cbn [negb orb].
  destruct (Nat.ltb_spec (length (strip event_details)) 10) as [Hlt|_]; [lia|].
  rewrite !emit_bind, E1, bind_Ok, emit_bind, E2, bind_Ok.
  cbn [trace outcome fst snd]. reflexivity.
Qed.

Lemma posts_try_outcome (event_details api_key : str) :
  outcome (generate_social_media_posts_try P event_details api_key) =
  chat_completions_create P (posts_prompt event_details) api_key.
Proof.
  unfold generate_social_media_posts_try. now rewrite emit_bind.
Qed.

Lemma show_content_nothing (posts : option str) (image : option (Image P))
    (event_details : str) :
  posts = None \/ image = None ->
  show_content P posts image event_details = ([], Ok tt).
Proof.
  intros [-> | ->]; [reflexivity|]. now destruct posts.
Qed.

(** *** The claims about the page *)

(** C6: a text that holds none of the three labels yields no
    per-platform text and no fault, and the left column still shows
    the whole generated text. *)
Theorem unlabelled_text_shown_raw (posts : str) :
  find (cp "LinkedIn:") posts = None ->
  find (cp "Twitter:") posts = None ->
  find (cp "WhatsApp:") posts = None ->
  section_texts posts = Ok None /\
  show_posts P posts =
  ([Enter col1; st_subheader (cp "Social Media Posts"); st_markdown posts false],
   Ok tt).
Proof.
  intros HL _ _.
  pose proof (Sections.section_texts_no_linkedin _ HL) as E.
  split; [exact E|].
  unfold show_posts. rewrite !emit_bind. unfold lift. rewrite E, bind_Ok.
  reflexivity.
Qed.

(** C7, amended: with an empty credential, or a description that has
    fewer than 10 characters once the white space at its two ends is
    stripped, the run shows one validation error and nothing else, so
    no remote call is made; with a non-empty credential and a stripped
    description of 10 characters or more, the text request and the
    image request are both issued. *)
Theorem validation_gate (api_key event_details : str) :
  (api_key = [] ->
   main P api_key event_details true =
   ([st_error (cp "Please enter your OpenAI API key in the sidebar.")], Ok tt)) /\
  (api_key <> [] -> length (strip event_details) < 10 ->
   main P api_key event_details true =
   ([st_error (cp "Please provide more details about your event.")], Ok tt)) /\
  (api_key <> [] -> 10 <= length (strip event_details) ->
   In (TextRequest (posts_prompt event_details) api_key)
      (trace (main P api_key event_details true)) /\
   In (ImageRequest (image_prompt indent8 event_details) api_key)
      (trace (main P api_key event_details true))).
Proof.
  split; [|split].
  - intros ->. reflexivity.
  - intros Hk Hd. unfold main.
    destruct api_key as [|c k]; [congruence|]. cbn [truthy negb].
    destruct (Nat.ltb_spec (length (strip event_details)) 10) as [_|Hge]; [|lia].
    now rewrite orb_true_r.
  - intros Hk Hd.
    destruct (posts_total event_details api_key) as (t1 & posts & E1 & _).
    destruct (image_total event_details api_key) as (t2 & [image url] & E2 & _).
    rewrite (main_valid _ _ _ _ _ _ _ Hk Hd E1 E2). cbn [trace fst]. split.
    + right; right; left. reflexivity.
    + right; right; right. apply in_or_app. right. right. left. reflexivity.
Qed.

(** C8: on a run that passes validation the two helpers run one after
    the other and both requests are issued whatever the provider does;
    a fault of the text call is caught in
    [generate_social_media_posts], which returns [None] after an error
    message, a fault of the image call is caught in
    [generate_event_image], which returns [(None, None)] after an
    error message, and in either case the run ends without an
    exception. *)
Theorem provider_faults_contained (api_key event_details : str) :
  api_key <> [] -> 10 <= length (strip event_details) ->
  let run := main P api_key event_details true in
  (exists shown,
     trace run =
     st_columns [3; 2]
       :: Enter (spinner (cp "Generating social media posts..."))
       :: trace (generate_social_media_posts P event_details api_key)
       ++ Enter (spinner (cp "Creating promotional image..."))
       :: trace (generate_event_image P event_details api_key)
       ++ shown) /\
  In (TextRequest (posts_prompt event_details) api_key) (trace run) /\
  In (ImageRequest (image_prompt indent8 event_details) api_key) (trace run) /\
  (forall e : exn,
     outcome (generate_social_media_posts_try P event_details api_key) = Raise e ->
     outcome (generate_social_media_posts P event_details api_key) = Ok None /\
     In (st_error (cp "Error generating posts: " ++ exn_str e)) (trace run) /\
     outcome run = Ok tt) /\
  (forall e : exn,
     outcome (generate_event_image_try P event_details api_key) = Raise e ->
     outcome (generate_event_image P event_details api_key) = Ok (None, None) /\
     In (st_error (cp "Error generating image: " ++ exn_str e)) (trace run) /\
     outcome run = Ok tt).
Proof.
  intros Hk Hd run.
  destruct (posts_total event_details api_key) as (t1 & posts & E1 & _).
  destruct (image_total event_details api_key) as (t2 & [image url] & E2 & _).
  pose proof (main_valid _ _ _ _ _ _ _ Hk Hd E1 E2) as Hrun. fold run in Hrun.
  split; [|split; [|split; [|split]]].
  - rewrite Hrun, E1, E2. cbn [trace fst]. eexists. reflexivity.
  - rewrite Hrun. cbn [trace fst]. right; right; left. reflexivity.
  - rewrite Hrun. cbn [trace fst]. right; right; right.
    apply in_or_app. right. right. left. reflexivity.
  - intros e He. rewrite posts_try_outcome in He.
    pose proof (posts_fault_caught _ _ _ He) as E. rewrite E in E1.
    injection E1 as <- <-. rewrite E, Hrun.
    rewrite (show_content_nothing None image event_details (or_introl eq_refl)).
    cbn [trace outcome fst snd]. repeat split.
    right; right; right; left. reflexivity.
  - intros e He.
    pose proof (image_fault_caught _ _ _ He) as E.
    assert (Hin : In (st_error (cp "Error generating image: " ++ exn_str e))
                     (trace (generate_event_image P event_details api_key))).
    { rewrite E. cbn [trace fst]. apply in_or_app. right. left. reflexivity. }
    assert (Himg : image = None).
    { pose proof (f_equal outcome E2) as Ho. rewrite E in Ho.
      cbn [outcome snd] in Ho. congruence. }
    subst image. rewrite E2 in Hin. cbn [trace fst] in Hin.
    rewrite E, Hrun.
    rewrite (show_content_nothing posts None event_details (or_intror eq_refl)).
    cbn [trace outcome fst snd]. repeat split.
    right; right. apply in_or_app. right. right.
    apply in_or_app. left. exact Hin.
Qed.

(** C9: when the text helper returned [None] or the image helper
    returned no image, the run puts no generated result on the page:
    neither the success message, nor the posts and their tabs, nor the
    image and its download link. *)
Theorem results_shown_only_together (api_key event_details : str)
    (generate_btn : bool) :
  outcome (generate_social_media_posts P event_details api_key) = Ok None \/
  (exists image_url,
     outcome (generate_event_image P event_details api_key)
     = Ok (None, image_url)) ->
  Forall (fun e => shows_result e = false)
         (trace (main P api_key event_details generate_btn)).
Proof.
  intros H. destruct generate_btn; [|constructor].
  destruct api_key as [|c k]; [repeat constructor|].
  destruct (le_lt_dec 10 (length (strip event_details))) as [Hd|Hd].
  - assert (Hk : c :: k <> []) by discriminate.
    destruct (posts_total event_details (c :: k)) as (t1 & posts & E1 & F1).
    destruct (image_total event_details (c :: k)) as (t2 & [image url] & E2 & F2).
    rewrite (main_valid _ _ _ _ _ _ _ Hk Hd E1 E2).
    rewrite E1, E2 in H. cbn [outcome snd] in H.
    rewrite show_content_nothing.
    + cbn [trace fst]. rewrite app_nil_r.
      apply (Forall_app _ [_; _; _]). split; [repeat constructor|].
      apply Forall_app. split; [exact F1|].
      apply (Forall_app _ [_; _]). split; [repeat constructor | exact F2].
    + destruct H as [[= ->] | [u [= -> _]]]; [now left | now right].
  - unfold main. cbn [truthy negb].
    destruct (Nat.ltb_spec (length (strip event_details)) 10) as [_|Hge]; [|lia].
    rewrite orb_true_r. repeat constructor.
Qed.

End Runs.

Lemma unlabelled_text_shown_raw_witness :
  section_texts Examples.posts_unlabelled = Ok None /\
  show_posts Examples.offline Examples.posts_unlabelled =
  ([Enter col1; st_subheader (cp "Social Media Posts");
    st_markdown Examples.posts_unlabelled false],
   Ok tt).
Proof.
  apply (unlabelled_text_shown_raw Examples.offline Examples.posts_unlabelled);
    reflexivity.
Defined.

(** C7 as the claim states it fails: a description with six
    characters that are not white space passes the validation, and
    remote calls are made. *)
Lemma few_letters_pass_validation :
  Examples.non_whitespace Examples.spaced_details < 10 /\
  existsb is_remote_call
    (trace (main Examples.offline Examples.sample_key
                 Examples.spaced_details true)) = true.
Proof. split; [vm_compute; lia | reflexivity]. Qed.

Lemma validation_gate_witness :
  main Examples.canned [] Examples.sample_details true =
  ([st_error (cp "Please enter your OpenAI API key in the sidebar.")], Ok tt) /\
  main Examples.canned Examples.sample_key (cp "  too short ") true =
  ([st_error (cp "Please provide more details about your event.")], Ok tt) /\
  In (TextRequest (posts_prompt Examples.sample_details) Examples.sample_key)
     (trace (main Examples.canned Examples.sample_key
                  Examples.sample_details true)) /\
  In (ImageRequest (image_prompt indent8 Examples.sample_details)
                   Examples.sample_key)
     (trace (main Examples.canned Examples.sample_key
                  Examples.sample_details true)).
Proof.
  split; [|split].
  - apply (proj1 (validation_gate Examples.canned [] Examples.sample_details)).
    reflexivity.
  - apply (proj1 (proj2 (validation_gate Examples.canned Examples.sample_key
                           (cp "  too short ")))).
    + discriminate.
    + vm_compute. lia.
  - apply (proj2 (proj2 (validation_gate Examples.canned Examples.sample_key
                           Examples.sample_details))).
    + discriminate.
    + vm_compute. lia.
Defined.

Lemma provider_faults_contained_witness :
  (In (ImageRequest (image_prompt indent8 Examples.sample_details)
                    Examples.sample_key)
      (trace (main Examples.text_down Examples.sample_key
                   Examples.sample_details true)) /\
   outcome (main Examples.text_down Examples.sample_key
                 Examples.sample_details true) = Ok tt) /\
  (In (TextRequest (posts_prompt Examples.sample_details) Examples.sample_key)
      (trace (main Examples.image_down Examples.sample_key
                   Examples.sample_details true)) /\
   outcome (main Examples.image_down Examples.sample_key
                 Examples.sample_details true) = Ok tt).
Proof.
  split.
  - destruct (provider_faults_contained Examples.text_down Examples.sample_key
                Examples.sample_details) as (_ & _ & HI & HT & _).
    + discriminate.
    + vm_compute. lia.
    + split; [exact HI|].
      apply (HT (ProviderFault (cp "Incorrect API key provided"))). reflexivity.
  - destruct (provider_faults_contained Examples.image_down Examples.sample_key
                Examples.sample_details) as (_ & HT & _ & _ & HI).
    + discriminate.
    + vm_compute. lia.
    + split; [exact HT|].
      apply (HI (ProviderFault (cp "Rate limit exceeded"))). reflexivity.
Defined.

Lemma results_shown_only_together_witness :
  Forall (fun e => shows_result e = false)
         (trace (main Examples.text_down Examples.sample_key
                      Examples.sample_details true)).
Proof.
  apply results_shown_only_together. left. reflexivity.
Defined.

End Page.

(** ** More on the section extraction *)

Module Extraction.
Import Py PyFacts App.

Local Abbreviation LinkedIn := (cp "LinkedIn:").
Local Abbreviation Twitter := (cp "Twitter:").
Local Abbreviation WhatsApp := (cp "WhatsApp:").

(** [lstrip] leaves no white space in front. *)
Lemma lstrip_head (s : str) (c : char) (r : str) :
  lstrip s = c :: r -> isspace c = false.
Proof.
  induction s as [|a s IH]; [discriminate|].
  simpl. destruct (isspace a) eqn:E; [exact IH|].
  intros [= <- _]. exact E.
Qed.

Lemma lstrip_fixed (c : char) (r : str) :
  isspace c = false -> lstrip (c :: r) = c :: r.
Proof. intros H. simpl. now rewrite H. Qed.

Lemma lstrip_idempotent (s : str) : lstrip (lstrip s) = lstrip s.
Proof.
  destruct (lstrip s) as [|c r] eqn:E; [reflexivity|].
  apply lstrip_fixed. exact (lstrip_head _ _ _ E).
Qed.

(** [rstrip] keeps a prefix. *)
Lemma rstrip_prefix (s : str) : exists b, s = rstrip s ++ b.
Proof.
  unfold rstrip. destruct (lstrip_suffix (rev s)) as [a Ha].
  exists (rev a). rewrite <- rev_app_distr, <- Ha. now rewrite rev_involutive.
Qed.

Lemma strip_idempotent (s : str) : strip (strip s) = strip s.
Proof.
  unfold strip.
  assert (H : lstrip (rstrip (lstrip s)) = rstrip (lstrip s)).
  { destruct (rstrip (lstrip s)) as [|c r] eqn:E; [reflexivity|].
    apply lstrip_fixed.
    destruct (rstrip_prefix (lstrip s)) as [b Hb]. rewrite E in Hb.
    exact (lstrip_head _ _ _ Hb). }
  rewrite H. unfold rstrip. rewrite rev_involutive.
  now rewrite lstrip_idempotent.
Qed.

Lemma strip_length (s : str) : length (strip s) <= length s.
Proof.
  destruct (strip_slice s) as [a [b H]].
  rewrite H at 2. rewrite !length_app. lia.
Qed.

Lemma lstrip_spaces (s : str) : forallb isspace s = true -> lstrip s = [].
Proof.
  induction s as [|c s IH]; [reflexivity|].
  simpl. destruct (isspace c); [exact IH | discriminate].
Qed.

Lemma strip_spaces (s : str) : forallb isspace s = true -> strip s = [].
Proof. intros H. unfold strip. now rewrite (lstrip_spaces _ H). Qed.

(** The segment [sections[1]] decides between three texts and
    [IndexError]. *)
Lemma segment_texts_found (s1 : str) (i j : nat) :
  find Twitter s1 = Some i -> find WhatsApp s1 = Some j ->
  exists l t w, segment_texts s1 = Ok (Some (l, t, w)).
Proof.
  intros FT FW.
  destruct (split_found _ _ _ Sections.Twitter_ne FT) as [t1 [tl [ET _]]].
  destruct (split_found _ _ _ Sections.WhatsApp_ne FW) as [w1 [wl [EW _]]].
  destruct (split_scan_nonempty WhatsApp 0 [] t1) as [w0 [wl' E0]].
  unfold segment_texts. rewrite ET, EW. cbn [rbind index nth_error].
  rewrite split_ok by exact Sections.WhatsApp_ne. rewrite E0.
  cbn [rbind index nth_error]. now eexists _, _, _.
Qed.

Lemma segment_texts_outcome (s1 : str) :
  (find Twitter s1 <> None /\ find WhatsApp s1 <> None /\
   exists l t w, segment_texts s1 = Ok (Some (l, t, w))) \/
  ((find Twitter s1 = None \/ find WhatsApp s1 = None) /\
   segment_texts s1 = Raise IndexError).
Proof.
  destruct (find Twitter s1) as [i|] eqn:FT.
  - destruct (find WhatsApp s1) as [j|] eqn:FW.
    + left. repeat split; try discriminate.
      exact (segment_texts_found _ _ _ FT FW).
    + right. split; [now right | now apply Sections.segment_no_whatsapp].
  - right. split; [now left | now apply Sections.segment_no_twitter].
Qed.

Lemma section_texts_cases (posts : str) :
  (find LinkedIn posts = None /\ split posts LinkedIn = Ok [posts]) \/
  (exists p s1 tl,
     find LinkedIn posts <> None /\
     split posts LinkedIn = Ok (p :: s1 :: tl) /\
     section_texts posts = segment_texts s1 /\ slice_of s1 posts).
Proof.
  destruct (find LinkedIn posts) as [i|] eqn:F.
  - right. destruct (split_found _ _ _ Sections.LinkedIn_ne F) as [s1 [tl [E _]]].
    exists (firstn i posts), s1, tl. repeat split; [discriminate | exact E | |].
    + exact (Sections.section_texts_segment _ _ _ _ E).
    + apply (split_pieces _ _ _ 1 s1 E). reflexivity.
  - left. split; [reflexivity|]. exact (split_not_found _ _ Sections.LinkedIn_ne F).
Qed.

(** *** Which texts give which outcome *)

(** X1: No tab is made exactly when the text holds no ['LinkedIn:']. *)
Theorem no_texts_iff_no_linkedin (posts : str) :
  section_texts posts = Ok None <-> find LinkedIn posts = None.
Proof.
  split; [|apply Sections.section_texts_no_linkedin].
  destruct (section_texts_cases posts) as [[F _] | (p & s1 & tl & _ & _ & E & _)];
    [trivial|].
  rewrite E.
  destruct (segment_texts_outcome s1) as [(_ & _ & l & t & w & H) | [_ H]];
    rewrite H; discriminate.
Qed.

(** X2: The extraction raises nothing but [IndexError], and raises it
    exactly when ['LinkedIn:'] is found and the segment behind it lacks
    ['Twitter:'] or ['WhatsApp:']. *)
Theorem raises_iff_segment_lacks_label (posts : str) (e : exn) :
  section_texts posts = Raise e <->
  e = IndexError /\
  exists p s1 tl,
    split posts LinkedIn = Ok (p :: s1 :: tl) /\
    (find Twitter s1 = None \/ find WhatsApp s1 = None).
Proof.
  split.
  - destruct (section_texts_cases posts) as [[F _] | (p & s1 & tl & _ & Es & E & _)].
    + rewrite (Sections.section_texts_no_linkedin _ F). discriminate.
    + rewrite E.
      destruct (segment_texts_outcome s1) as [(_ & _ & l & t & w & H) | [Hl H]];
        rewrite H; [discriminate|].
      intros [= <-]. split; [reflexivity|]. now exists p, s1, tl.
  - intros [-> (p & s1 & tl & Es & Hl)].
    rewrite (Sections.section_texts_segment _ _ _ _ Es).
    destruct Hl as [H | H];
      [now apply Sections.segment_no_twitter | now apply Sections.segment_no_whatsapp].
Qed.

(** X3: Three texts are returned exactly when ['LinkedIn:'] is found and
    the segment behind it holds both ['Twitter:'] and ['WhatsApp:'], in
    whichever order. *)
Theorem three_texts_iff_segment_has_labels (posts : str) :
  (exists l t w, section_texts posts = Ok (Some (l, t, w))) <->
  exists p s1 tl,
    split posts LinkedIn = Ok (p :: s1 :: tl) /\
    find Twitter s1 <> None /\ find WhatsApp s1 <> None.
Proof.
  split.
  - intros (l & t & w & H).
    destruct (section_texts_cases posts) as [[F _] | (p & s1 & tl & _ & Es & E & _)].
    + rewrite (Sections.section_texts_no_linkedin _ F) in H. discriminate.
    + exists p, s1, tl. split; [exact Es|]. rewrite E in H.
      destruct (segment_texts_outcome s1) as [(HT & HW & _) | [_ H']];
        [now split | congruence].
  - intros (p & s1 & tl & Es & HT & HW).
    rewrite (Sections.section_texts_segment _ _ _ _ Es).
    destruct (segment_texts_outcome s1) as [(_ & _ & H) | [[H | H] _]];
      [exact H | contradiction | contradiction].
Qed.

Lemma section_texts_some_inv (posts l t w : str) :
  section_texts posts = Ok (Some (l, t, w)) ->
  exists s1, slice_of s1 posts /\ segment_texts s1 = Ok (Some (l, t, w)).
Proof.
  intros H.
  destruct (section_texts_cases posts) as [[F _] | (p & s1 & tl & _ & _ & E & Hs)].
  - rewrite (Sections.section_texts_no_linkedin _ F) in H. discriminate.
  - exists s1. split; [exact Hs | now rewrite <- E].
Qed.

(** X4: Every returned text is free of white space at both ends. *)
Theorem texts_are_stripped (posts l t w : str) :
  section_texts posts = Ok (Some (l, t, w)) ->
  strip l = l /\ strip t = t /\ strip w = w.
Proof.
  intros H. destruct (section_texts_some_inv _ _ _ _ H) as (s1 & _ & E).
  destruct (Sections.segment_texts_inv _ _ _ _ E)
    as (ts & t0 & t1 & ws & w0 & ws' & w1 & _ & _ & _ & _ & _ & _ & _ & -> & -> & ->).
  repeat split; apply strip_idempotent.
Qed.

(** X5: Every returned text stands, as it is, in the generated text. *)
Theorem texts_are_slices (posts l t w : str) :
  section_texts posts = Ok (Some (l, t, w)) ->
  slice_of l posts /\ slice_of t posts /\ slice_of w posts.
Proof.
  intros H. destruct (section_texts_some_inv _ _ _ _ H) as (s1 & Hs & E).
  destruct (Sections.segment_texts_inv _ _ _ _ E)
    as (ts & t0 & t1 & ws & w0 & ws' & w1 &
        ET & E0 & E1 & EW & E2 & EW' & E3 & -> & -> & ->).
  destruct (split_pieces _ _ _ _ _ ET E0) as [_ S0].
  destruct (split_pieces _ _ _ _ _ ET E1) as [_ S1].
  destruct (split_pieces _ _ _ _ _ EW E2) as [_ S2].
  destruct (split_pieces _ _ _ _ _ EW' E3) as [_ S3].
  repeat split.
  - exact (slice_of_trans _ _ _ (strip_slice t0) (slice_of_trans _ _ _ S0 Hs)).
  - refine (slice_of_trans _ _ _ (strip_slice w0) _).
    exact (slice_of_trans _ _ _ S2 (slice_of_trans _ _ _ S1 Hs)).
  - exact (slice_of_trans _ _ _ (strip_slice w1) (slice_of_trans _ _ _ S3 Hs)).
Qed.

(** X6: On a text that holds each label once, in the order
    ['LinkedIn:'], ['WhatsApp:'], ['Twitter:'], three texts are still
    returned: the LinkedIn text runs on through the WhatsApp section,
    and the WhatsApp text through the Twitter section. *)
Theorem swapped_sections_run_on (pre a b c : str) :
  let posts := pre ++ LinkedIn ++ a ++ WhatsApp ++ b ++ Twitter ++ c in
  occurrences LinkedIn posts = 1 ->
  occurrences Twitter posts = 1 ->
  occurrences WhatsApp posts = 1 ->
  section_texts posts =
  Ok (Some (strip (a ++ WhatsApp ++ b), strip c, strip (b ++ Twitter ++ c))).
Proof.
  intros posts HL HT HW.
  set (m := a ++ WhatsApp ++ b ++ Twitter ++ c) in *.
  assert (EL : split posts LinkedIn = Ok [pre; m]).
  { apply split_once; [exact Sections.LinkedIn_ne | fold m; fold posts; lia]. }
  rewrite (Sections.section_texts_segment _ _ _ _ EL).
  assert (HTm : occurrences Twitter m <= 1).
  { rewrite <- HT. unfold posts. rewrite app_assoc. apply occurrences_suffix. }
  assert (HWm : occurrences WhatsApp m <= 1).
  { rewrite <- HW. unfold posts. rewrite app_assoc. apply occurrences_suffix. }
  assert (EW : split m WhatsApp = Ok [a; b ++ Twitter ++ c]).
  { apply split_once; [exact Sections.WhatsApp_ne | exact HWm]. }
  assert (Em : m = (a ++ WhatsApp ++ b) ++ Twitter ++ c).
  { unfold m. now rewrite <- !app_assoc. }
  assert (ET : split m Twitter = Ok [a ++ WhatsApp ++ b; c]).
  { rewrite Em. apply split_once; [exact Sections.Twitter_ne | now rewrite <- Em]. }
  assert (Fc : find WhatsApp c = None).
  { destruct (occurs_once _ _ _ Sections.WhatsApp_ne HWm) as [_ F].
    apply (find_none_suffix _ (b ++ Twitter)). now rewrite <- app_assoc. }
  unfold segment_texts. rewrite ET, EW. cbn [rbind index nth_error].
  rewrite (split_not_found _ _ Sections.WhatsApp_ne Fc). reflexivity.
Qed.

Lemma no_texts_iff_no_linkedin_witness :
  section_texts (cp "Twitter: only") = Ok None.
Proof. apply no_texts_iff_no_linkedin. reflexivity. Defined.

Lemma raises_iff_segment_lacks_label_witness :
  section_texts (cp "LinkedIn: a WhatsApp: b") = Raise IndexError.
Proof.
  apply raises_iff_segment_lacks_label. split; [reflexivity|].
  exists [], (cp " a WhatsApp: b"), []. split; [reflexivity | left; reflexivity].
Defined.

Lemma three_texts_iff_segment_has_labels_witness :
  exists l t w, section_texts Examples.posts_swapped = Ok (Some (l, t, w)).
Proof.
  apply three_texts_iff_segment_has_labels.
  exists [], (cp " a" ++ nl :: cp "WhatsApp: b" ++ nl :: cp "Twitter: c"), [].
  split; [reflexivity|]. split; vm_compute; discriminate.
Defined.

Lemma texts_are_stripped_witness :
  strip (cp "Join us! #Event") = cp "Join us! #Event" /\
  strip (cp "Come join! #Fun") = cp "Come join! #Fun" /\
  strip (cp "Hey, check this out!") = cp "Hey, check this out!".
Proof. apply (texts_are_stripped Examples.posts_example). reflexivity. Defined.

Lemma texts_are_slices_witness :
  slice_of (cp "Join us! #Event") Examples.posts_example /\
  slice_of (cp "Come join! #Fun") Examples.posts_example /\
  slice_of (cp "Hey, check this out!") Examples.posts_example.
Proof. apply texts_are_slices. reflexivity. Defined.

Lemma swapped_sections_run_on_witness :
  section_texts
    (cp "Here: " ++ LinkedIn ++ cp " a " ++ WhatsApp ++ cp " b "
       ++ Twitter ++ cp " c")
  = Ok (Some (strip (cp " a " ++ WhatsApp ++ cp " b "), strip (cp " c"),
              strip (cp " b " ++ Twitter ++ cp " c"))).
Proof.
  apply (swapped_sections_run_on (cp "Here: ") (cp " a ") (cp " b ") (cp " c"));
    reflexivity.
Defined.

End Extraction.

(** ** More on the runs of the page *)

Module WholeRuns.
Import Py PyFacts App.

Section AnyProvider.

Variable P : Provider.

(** The right column, by what the rendering and the saving of the image
    give. *)
Lemma show_image_run (image : Image P) (event_details : str) (data : bytes) :
  st_image_render P image = Ok tt ->
  Image_save_png P image = Ok data ->
  show_image P image event_details =
  ([Enter col2; st_subheader (cp "Promotional Image"); st_image image;
    st_markdown
      (href_of (b64encode data) (cp "event_promo_image") (cp "Download Image"))
      true;
    Enter (expander (cp "View the image prompt"));
    st_write (image_prompt indent24 event_details)],
   Ok tt).
Proof.
  intros Hr Hs. unfold show_image, get_image_download_link, lift.
  repeat (progress (rewrite ?Page.emit_bind, ?Page.bind_Ok, ?Hr, ?Hs;
                    cbn [rbind]; cbv zeta)).
  reflexivity.
Qed.

Lemma show_image_render_raise (image : Image P) (event_details : str) (e : exn) :
  st_image_render P image = Raise e ->
  show_image P image event_details =
  ([Enter col2; st_subheader (cp "Promotional Image")], Raise e).
Proof.
  intros Hr. unfold show_image, lift.
  repeat (progress (rewrite ?Page.emit_bind, ?Page.bind_Raise, ?Hr)).
  reflexivity.
Qed.

Lemma show_image_save_raise (image : Image P) (event_details : str) (e : exn) :
  st_image_render P image = Ok tt ->
  Image_save_png P image = Raise e ->
  show_image P image event_details =
  ([Enter col2; st_subheader (cp "Promotional Image"); st_image image], Raise e).
Proof.
  intros Hr Hs. unfold show_image, get_image_download_link, lift.
  repeat (progress (rewrite ?Page.emit_bind, ?Page.bind_Ok, ?Page.bind_Raise,
                      ?Hr, ?Hs;
                    cbn [rbind]; cbv zeta)).
  reflexivity.
Qed.

Lemma show_image_shows (image : Image P) (event_details : str) :
  Forall (fun e => shows_result e = true)
         (trace (show_image P image event_details)).
Proof.
  destruct (st_image_render P image) as [[]|e] eqn:Hr.
  - destruct (Image_save_png P image) as [data|e] eqn:Hs.
    + rewrite (show_image_run _ _ _ Hr Hs). repeat constructor.
    + rewrite (show_image_save_raise _ _ _ Hr Hs). repeat constructor.
  - rewrite (show_image_render_raise _ _ _ Hr). repeat constructor.
Qed.

(** The left column, by what the extraction gives. *)
Lemma show_posts_raise (posts : str) (e : exn) :
  section_texts posts = Raise e ->
  show_posts P posts =
  ([Enter col1; st_subheader (cp "Social Media Posts"); st_markdown posts false],
   Raise e).
Proof.
  intros E. unfold show_posts. rewrite !Page.emit_bind. unfold lift.
  rewrite E, Page.bind_Raise. reflexivity.
Qed.

Lemma show_posts_none (posts : str) :
  section_texts posts = Ok None ->
  show_posts P posts =
  ([Enter col1; st_subheader (cp "Social Media Posts"); st_markdown posts false],
   Ok tt).
Proof.
  intros E. unfold show_posts. rewrite !Page.emit_bind. unfold lift.
  rewrite E, Page.bind_Ok. reflexivity.
Qed.

Lemma show_posts_some (posts l t w : str) :
  section_texts posts = Ok (Some (l, t, w)) ->
  show_posts P posts =
  ([Enter col1; st_subheader (cp "Social Media Posts"); st_markdown posts false;
    st_subheader (cp "Copy Individual Posts");
    st_tabs [cp "LinkedIn"; cp "Twitter"; cp "WhatsApp"];
    Enter (post_tab 0); st_text_area (cp "LinkedIn Post") l 150;
    Enter (post_tab 1); st_text_area (cp "Twitter Post") t 100;
    Enter (post_tab 2); st_text_area (cp "WhatsApp Post") w 150],
   Ok tt).
Proof.
  intros E. unfold show_posts. rewrite !Page.emit_bind. unfold lift.
  rewrite E, Page.bind_Ok. rewrite !Page.emit_bind. reflexivity.
Qed.

Lemma show_content_both (posts : str) (image : Image P) (event_details : str) :
  posts <> [] ->
  show_content P (Some posts) (Some image) event_details =
  (st_success (cp "Content generated successfully!")
     :: trace (show_posts P posts)
     ++ match outcome (show_posts P posts) with
        | Ok _ => trace (show_image P image event_details)
        | Raise _ => []
        end,
   match outcome (show_posts P posts) with
   | Ok _ => outcome (show_image P image event_details)
   | Raise e => Raise e
   end).
Proof.
  intros Hp. unfold show_content. destruct posts as [|c r]; [congruence|].
  cbn [truthy]. rewrite Page.emit_bind.
  destruct (show_posts P (c :: r)) as [t [[]|e]].
  - rewrite Page.bind_Ok. reflexivity.
  - rewrite Page.bind_Raise. cbn [trace outcome fst snd].
    now rewrite app_nil_r.
Qed.

Lemma show_content_empty (image : option (Image P)) (event_details : str) :
  show_content P (Some []) image event_details = ([], Ok tt).
Proof. now destruct image. Qed.

(** The image helper, case by case. *)
Lemma image_cases (event_details api_key : str) :
  let prompt := image_prompt indent8 event_details in
  (exists e,
     images_generate P prompt api_key = Raise e /\
     generate_event_image P event_details api_key =
     ([ImageRequest prompt api_key;
       st_error (cp "Error generating image: " ++ exn_str e)],
      Ok (None, None))) \/
  (exists url e,
     images_generate P prompt api_key = Ok url /\
     generate_event_image P event_details api_key =
     ([ImageRequest prompt api_key; HttpGet url;
       st_error (cp "Error generating image: " ++ exn_str e)],
      Ok (None, None))) \/
  (exists url img,
     images_generate P prompt api_key = Ok url /\
     generate_event_image P event_details api_key =
     ([ImageRequest prompt api_key; HttpGet url], Ok (Some img, Some url))).
Proof.
  intros prompt.
  unfold generate_event_image, generate_event_image_try. fold prompt.
  rewrite Page.emit_bind. unfold lift.
  destruct (images_generate P prompt api_key) as [url|e].
  2: { left. exists e. split; [reflexivity|].
       rewrite Page.bind_Raise. cbn [trace outcome fst snd try_except].
       rewrite Page.emit_bind. reflexivity. }
  right. rewrite Page.bind_Ok, Page.emit_bind.
  destruct (requests_get P url) as [content|e].
  2: { left. exists url, e. split; [reflexivity|].
       rewrite Page.bind_Raise. cbn [trace outcome fst snd try_except app].
       rewrite Page.emit_bind. reflexivity. }
  rewrite Page.bind_Ok.
  destruct (Image_open P content) as [img|e].
  - right. exists url, img. split; [reflexivity|].
    rewrite Page.bind_Ok. reflexivity.
  - left. exists url, e. split; [reflexivity|].
    rewrite Page.bind_Raise. cbn [trace outcome fst snd try_except app].
    rewrite Page.emit_bind. reflexivity.
Qed.

Lemma show_content_shows (posts : option str) (image : option (Image P))
    (event_details : str) :
  Forall (fun e => shows_result e = true)
         (trace (show_content P posts image event_details)).
Proof.
  destruct posts as [posts|]; [|constructor].
  destruct image as [image|]; [|constructor].
  destruct posts as [|c r]; [constructor|].
  rewrite show_content_both by discriminate. cbn [trace fst].
  constructor; [reflexivity|].
  destruct (section_texts (c :: r)) as [[[[l t] w]|]|e] eqn:E.
  - rewrite (show_posts_some _ _ _ _ E).
    cbn [trace outcome fst snd]. apply Forall_app. split;
      [repeat constructor | apply show_image_shows].
  - rewrite (show_posts_none _ E).
    cbn [trace outcome fst snd]. apply Forall_app. split;
      [repeat constructor | apply show_image_shows].
  - rewrite (show_posts_raise _ _ E).
    cbn [trace outcome fst snd app]. repeat constructor.
Qed.

Lemma count_events_app (f : event P -> bool) (a b : list (event P)) :
  count_events f (a ++ b) = count_events f a + count_events f b.
Proof. unfold count_events. now rewrite filter_app, length_app. Qed.

Lemma count_events_none (f : event P -> bool) (t : list (event P)) :
  Forall (fun e => f e = false) t -> count_events f t = 0.
Proof.
  unfold count_events. induction 1 as [|e t He _ IH]; [reflexivity|].
  simpl. now rewrite He.
Qed.

Lemma shown_is_no_request (t : list (event P)) :
  Forall (fun e => shows_result e = true) t ->
  count_events is_text_request t = 0 /\ count_events is_image_request t = 0 /\
  count_events is_http_get t = 0 /\ count_events is_st_error t = 0.
Proof.
  intros H. repeat split; apply count_events_none;
    (eapply Forall_impl; [|exact H]); intros e He;
    destruct e as [| | |[]| | | | | | | | |]; try reflexivity; discriminate.
Qed.

(** A run with both results in hand. *)
Lemma main_both (api_key event_details posts : str) (img : Image P)
    (url : option str) :
  api_key <> [] -> 10 <= length (strip event_details) ->
  outcome (generate_social_media_posts P event_details api_key) = Ok (Some posts) ->
  outcome (generate_event_image P event_details api_key) = Ok (Some img, url) ->
  main P api_key event_details true =
  (st_columns [3; 2]
     :: Enter (spinner (cp "Generating social media posts..."))
     :: trace (generate_social_media_posts P event_details api_key)
     ++ Enter (spinner (cp "Creating promotional image..."))
     :: trace (generate_event_image P event_details api_key)
     ++ trace (show_content P (Some posts) (Some img) event_details),
   outcome (show_content P (Some posts) (Some img) event_details)).
Proof.
  intros Hk Hd E1 E2. apply Page.main_valid with (image_url := url); trivial.
  - rewrite <- E1. apply Page.pair_trace_outcome.
  - rewrite <- E2. apply Page.pair_trace_outcome.
Qed.

(** *** The image helper *)

(** X7: [generate_event_image] returns an image together with its URL and
    shows no error, or returns neither and shows one error. *)
Theorem image_all_or_nothing (event_details api_key : str) :
  let run := generate_event_image P event_details api_key in
  (exists img url,
     outcome run = Ok (Some img, Some url) /\
     count_events is_st_error (trace run) = 0) \/
  (outcome run = Ok (None, None) /\
   count_events is_st_error (trace run) = 1).
Proof.
  intros run. unfold run.
  destruct (image_cases event_details api_key)
    as [(e & _ & E) | [(url & e & _ & E) | (url & img & _ & E)]]; rewrite E.
  - right. split; reflexivity.
  - right. split; reflexivity.
  - left. exists img, url. split; reflexivity.
Qed.

(** X8: The only address downloaded is the one the image service
    returned. *)
Theorem download_only_of_returned_url (event_details api_key url : str) :
  In (HttpGet url) (trace (generate_event_image P event_details api_key)) ->
  images_generate P (image_prompt indent8 event_details) api_key = Ok url.
Proof.
  destruct (image_cases event_details api_key)
    as [(e & _ & E) | [(u & e & Eu & E) | (u & img & Eu & E)]]; rewrite E;
    cbn [trace fst In]; intros H.
  - destruct H as [H | [H | []]]; discriminate.
  - destruct H as [H | [H | [H | []]]]; try discriminate.
    injection H as <-. exact Eu.
  - destruct H as [H | [H | []]]; try discriminate.
    injection H as <-. exact Eu.
Qed.

(** *** Whole runs *)

(** X9: In one run the page calls [client.chat.completions.create] at
    most once, [client.images.generate] at most once and
    [requests.get] at most once, and shows at most two errors: the
    page has no retry of its own.  What the client re-sends inside one
    call is not counted. *)
Theorem at_most_one_request_each (api_key event_details : str)
    (generate_btn : bool) :
  let t := trace (main P api_key event_details generate_btn) in
  count_events is_text_request t <= 1 /\
  count_events is_image_request t <= 1 /\
  count_events is_http_get t <= 1 /\
  count_events is_st_error t <= 2.
Proof.
  intros t. unfold t. clear t.
  destruct generate_btn; [|cbn; lia].
  destruct api_key as [|c k]; [cbn; lia|].
  destruct (le_lt_dec 10 (length (strip event_details))) as [Hd|Hd].
  - assert (Hk : c :: k <> []) by discriminate.
    destruct (Page.posts_total P event_details (c :: k)) as (t1 & posts & E1 & _).
    destruct (Page.image_total P event_details (c :: k))
      as (t2 & [image url] & E2 & _).
    rewrite (Page.main_valid P _ _ _ _ _ _ _ Hk Hd E1 E2). cbn [trace fst].
    destruct (shown_is_no_request _
                (show_content_shows posts image event_details))
      as (S1 & S2 & S3 & S4).
    assert (C1 : count_events is_text_request
                   (TextRequest (posts_prompt event_details) (c :: k) :: t1) = 1 /\
                 count_events is_image_request
                   (TextRequest (posts_prompt event_details) (c :: k) :: t1) = 0 /\
                 count_events is_http_get
                   (TextRequest (posts_prompt event_details) (c :: k) :: t1) = 0 /\
                 count_events is_st_error
                   (TextRequest (posts_prompt event_details) (c :: k) :: t1) <= 1).
    { change (TextRequest (posts_prompt event_details) (c :: k) :: t1)
        with (trace (TextRequest (posts_prompt event_details) (c :: k) :: t1,
                     @Ok (option str) posts)).
      rewrite <- E1.
      destruct (chat_completions_create P (posts_prompt event_details) (c :: k))
        as [v|e] eqn:E.
      - rewrite (Page.posts_returned P _ _ _ E). cbn. lia.
      - rewrite (Page.posts_fault_caught P _ _ _ E). cbn. lia. }
    assert (C2 : count_events is_text_request
                   (ImageRequest (image_prompt indent8 event_details) (c :: k) :: t2) = 0 /\
                 count_events is_image_request
                   (ImageRequest (image_prompt indent8 event_details) (c :: k) :: t2) = 1 /\
                 count_events is_http_get
                   (ImageRequest (image_prompt indent8 event_details) (c :: k) :: t2) <= 1 /\
                 count_events is_st_error
                   (ImageRequest (image_prompt indent8 event_details) (c :: k) :: t2) <= 1).
    { change (ImageRequest (image_prompt indent8 event_details) (c :: k) :: t2)
        with (trace (ImageRequest (image_prompt indent8 event_details) (c :: k) :: t2,
                     @Ok (option (Image P) * option str) (image, url))).
      rewrite <- E2.
      destruct (image_cases event_details (c :: k))
        as [(e & _ & E) | [(u & e & _ & E) | (u & img & _ & E)]]; rewrite E;
        cbn; lia. }
    destruct C1 as (A1 & A2 & A3 & A4). destruct C2 as (B1 & B2 & B3 & B4).
    change (st_columns [3; 2]
              :: Enter (spinner (cp "Generating social media posts..."))
              :: (TextRequest (posts_prompt event_details) (c :: k) :: t1)
              ++ Enter (spinner (cp "Creating promotional image..."))
              :: (ImageRequest (image_prompt indent8 event_details) (c :: k) :: t2)
              ++ trace (show_content P posts image event_details))
      with ([st_columns [3; 2];
             Enter (spinner (cp "Generating social media posts..."))]
              ++ (TextRequest (posts_prompt event_details) (c :: k) :: t1)
              ++ [Enter (spinner (cp "Creating promotional image..."))]
              ++ (ImageRequest (image_prompt indent8 event_details) (c :: k) :: t2)
              ++ trace (show_content P posts image event_details)).
    rewrite !count_events_app.
    rewrite S1, S2, S3, S4, A1, A2, A3, B1, B2.
    set (x := count_events is_st_error (TextRequest _ _ :: t1)) in *.
    set (y := count_events is_http_get (ImageRequest _ _ :: t2)) in *.
    set (z := count_events is_st_error (ImageRequest _ _ :: t2)) in *.
    cbn [count_events filter is_text_request is_image_request is_http_get
         is_st_error length].
    lia.
  - unfold main. cbn [truthy negb].
    destruct (Nat.ltb_spec (length (strip event_details)) 10) as [_|Hge]; [|lia].
    rewrite orb_true_r. cbn. lia.
Qed.

Lemma section_texts_nil : section_texts [] = Ok None.
Proof. reflexivity. Qed.

Lemma show_posts_outcome (posts : str) :
  outcome (show_posts P posts) =
  match section_texts posts with
  | Ok _ => Ok tt
  | Raise e => Raise e
  end.
Proof.
  destruct (section_texts posts) as [[[[l t] w]|]|e] eqn:E.
  - now rewrite (show_posts_some _ _ _ _ E).
  - now rewrite (show_posts_none _ E).
  - now rewrite (show_posts_raise _ _ E).
Qed.

Lemma show_image_raises_iff (image : Image P) (event_details : str) (e : exn) :
  outcome (show_image P image event_details) = Raise e <->
  st_image_render P image = Raise e \/
  st_image_render P image = Ok tt /\ Image_save_png P image = Raise e.
Proof.
  destruct (st_image_render P image) as [[]|e1] eqn:Hr.
  - destruct (Image_save_png P image) as [data|e2] eqn:Hs.
    + rewrite (show_image_run _ _ _ Hr Hs). cbn [outcome snd].
      split; [discriminate | intros [H | [_ H]]; discriminate].
    + rewrite (show_image_save_raise _ _ _ Hr Hs). cbn [outcome snd].
      split; [intros [= <-]; now right | intros [H | [_ H]]; congruence].
  - rewrite (show_image_render_raise _ _ _ Hr). cbn [outcome snd].
    split; [intros [= <-]; now left | intros [H | [H _]]; congruence].
Qed.

(** X10: A run ends in an exception exactly when the button was pressed,
    the inputs passed validation, both helpers returned a result with
    a text that is not empty, and then the extraction raised on the
    text, or, the extraction having returned, [st.image] raised on the
    image, or, the image having been shown, its saving as PNG raised;
    the exception of the run is that exception. *)
Theorem main_raises_iff (api_key event_details : str) (generate_btn : bool)
    (e : exn) :
  outcome (main P api_key event_details generate_btn) = Raise e <->
  generate_btn = true /\ api_key <> [] /\
  10 <= length (strip event_details) /\
  exists posts img url,
    outcome (generate_social_media_posts P event_details api_key)
    = Ok (Some posts) /\
    posts <> [] /\
    outcome (generate_event_image P event_details api_key)
    = Ok (Some img, url) /\
    (section_texts posts = Raise e \/
     (exists r, section_texts posts = Ok r) /\
     (st_image_render P img = Raise e \/
      st_image_render P img = Ok tt /\ Image_save_png P img = Raise e)).
Proof.
  split.
  - destruct generate_btn; [|discriminate].
    destruct api_key as [|c k]; [discriminate|].
    destruct (le_lt_dec 10 (length (strip event_details))) as [Hd|Hd].
    + assert (Hk : c :: k <> []) by discriminate.
      destruct (Page.posts_total P event_details (c :: k)) as (t1 & posts & E1 & _).
      destruct (Page.image_total P event_details (c :: k))
        as (t2 & [image url] & E2 & _).
      rewrite (Page.main_valid P _ _ _ _ _ _ _ Hk Hd E1 E2). cbn [outcome snd].
      destruct posts as [posts|]; [|discriminate].
      destruct image as [img|]; [|discriminate].
      destruct posts as [|a r]; [discriminate|].
      rewrite show_content_both by discriminate. cbn [outcome snd].
      rewrite show_posts_outcome. intros H.
      repeat split; trivial. exists (a :: r), img, url.
      rewrite E1, E2. repeat split; trivial; [discriminate|].
      revert H. destruct (section_texts (a :: r)) as [x|e'] eqn:E; intros H.
      * right. split; [now exists x|]. now apply show_image_raises_iff in H.
      * left. congruence.
    + unfold main. cbn [truthy negb].
      destruct (Nat.ltb_spec (length (strip event_details)) 10) as [_|Hge]; [|lia].
      rewrite orb_true_r. discriminate.
  - intros (-> & Hk & Hd & posts & img & url & E1 & Hp & E2 & H).
    rewrite (main_both _ _ _ _ _ Hk Hd E1 E2). cbn [outcome snd].
    rewrite (show_content_both _ _ _ Hp). cbn [outcome snd].
    rewrite show_posts_outcome.
    destruct H as [E | [[x E] H]]; rewrite E; [reflexivity|].
    now apply show_image_raises_iff.
Qed.

(** X11: When the extraction raises, the run has shown the success message
    and the whole generated text, and stops there: the image column is
    never reached. *)
Theorem crash_after_raw_text (api_key event_details posts : str)
    (img : Image P) (url : option str) (e : exn) :
  api_key <> [] -> 10 <= length (strip event_details) ->
  outcome (generate_social_media_posts P event_details api_key) = Ok (Some posts) ->
  outcome (generate_event_image P event_details api_key) = Ok (Some img, url) ->
  section_texts posts = Raise e ->
  main P api_key event_details true =
  (st_columns [3; 2]
     :: Enter (spinner (cp "Generating social media posts..."))
     :: trace (generate_social_media_posts P event_details api_key)
     ++ Enter (spinner (cp "Creating promotional image..."))
     :: trace (generate_event_image P event_details api_key)
     ++ [st_success (cp "Content generated successfully!");
         Enter col1; st_subheader (cp "Social Media Posts");
         st_markdown posts false],
   Raise e).
Proof.
  intros Hk Hd E1 E2 E.
  rewrite (main_both _ _ _ _ _ Hk Hd E1 E2).
  assert (Hp : posts <> []).
  { intros ->. rewrite section_texts_nil in E. discriminate. }
  rewrite (show_content_both _ _ _ Hp), (show_posts_raise _ _ E). reflexivity.
Qed.

(** X12: With three texts extracted, and an image that [st.image] shows
    and that saves as PNG, the run ends normally, the three tabs hold
    the three texts and the image is shown with its download link. *)
Theorem complete_run_shows_all (api_key event_details posts l t w : str)
    (img : Image P) (url : option str) (data : bytes) :
  api_key <> [] -> 10 <= length (strip event_details) ->
  outcome (generate_social_media_posts P event_details api_key) = Ok (Some posts) ->
  outcome (generate_event_image P event_details api_key) = Ok (Some img, url) ->
  section_texts posts = Ok (Some (l, t, w)) ->
  st_image_render P img = Ok tt ->
  Image_save_png P img = Ok data ->
  let run := main P api_key event_details true in
  outcome run = Ok tt /\
  In (st_markdown posts false) (trace run) /\
  In (st_text_area (cp "LinkedIn Post") l 150) (trace run) /\
  In (st_text_area (cp "Twitter Post") t 100) (trace run) /\
  In (st_text_area (cp "WhatsApp Post") w 150) (trace run) /\
  In (st_image img) (trace run) /\
  In (st_markdown
        (href_of (b64encode data) (cp "event_promo_image")
           (cp "Download Image")) true) (trace run).
Proof.
  intros Hk Hd E1 E2 E Hr Hs run. unfold run.
  rewrite (main_both _ _ _ _ _ Hk Hd E1 E2).
  assert (Hp : posts <> []).
  { intros ->. rewrite section_texts_nil in E. discriminate. }
  rewrite (show_content_both _ _ _ Hp), (show_posts_some _ _ _ _ E),
    (show_image_run _ _ _ Hr Hs).
  cbn [trace outcome fst snd]. split; [reflexivity|].
  repeat split; do 2 right; apply in_or_app; right; right;
    apply in_or_app; right; cbn [In app]; tauto.
Qed.

(** X13: With a returned text that is not empty and holds no
    ['LinkedIn:'], and an image that [st.image] shows and that saves
    as PNG, the run ends normally too: the whole text and the full
    image column are shown, and no tab. *)
Theorem unlabelled_run_degrades (api_key event_details posts : str)
    (img : Image P) (url : option str) (data : bytes) :
  api_key <> [] -> 10 <= length (strip event_details) ->
  outcome (generate_social_media_posts P event_details api_key) = Ok (Some posts) ->
  posts <> [] ->
  outcome (generate_event_image P event_details api_key) = Ok (Some img, url) ->
  find (cp "LinkedIn:") posts = None ->
  st_image_render P img = Ok tt ->
  Image_save_png P img = Ok data ->
  main P api_key event_details true =
  (st_columns [3; 2]
     :: Enter (spinner (cp "Generating social media posts..."))
     :: trace (generate_social_media_posts P event_details api_key)
     ++ Enter (spinner (cp "Creating promotional image..."))
     :: trace (generate_event_image P event_details api_key)
     ++ [st_success (cp "Content generated successfully!");
         Enter col1; st_subheader (cp "Social Media Posts");
         st_markdown posts false;
         Enter col2; st_subheader (cp "Promotional Image"); st_image img;
         st_markdown
           (href_of (b64encode data) (cp "event_promo_image")
              (cp "Download Image")) true;
         Enter (expander (cp "View the image prompt"));
         st_write (image_prompt indent24 event_details)],
   Ok tt).
Proof.
  intros Hk Hd E1 Hp E2 F Hr Hs.
  rewrite (main_both _ _ _ _ _ Hk Hd E1 E2).
  rewrite (show_content_both _ _ _ Hp).
  rewrite (show_posts_none _ (Sections.section_texts_no_linkedin _ F)).
  rewrite (show_image_run _ _ _ Hr Hs).
  reflexivity.
Qed.

(** X14: A text call that returns no content or an empty text, without
    raising, leaves the page with neither the posts nor an error
    message about them, and the image is not shown whatever the image
    call gave. *)
Theorem empty_reply_is_silent (api_key event_details : str) (v : option str) :
  api_key <> [] -> 10 <= length (strip event_details) ->
  chat_completions_create P (posts_prompt event_details) api_key = Ok v ->
  v = None \/ v = Some [] ->
  main P api_key event_details true =
  (st_columns [3; 2]
     :: Enter (spinner (cp "Generating social media posts..."))
     :: TextRequest (posts_prompt event_details) api_key
     :: Enter (spinner (cp "Creating promotional image..."))
     :: trace (generate_event_image P event_details api_key),
   Ok tt).
Proof.
  intros Hk Hd E Hv.
  destruct (Page.image_total P event_details api_key) as (t2 & [image url] & E2 & _).
  rewrite (Page.main_valid P _ _ _ _ _ _ _ Hk Hd
             (Page.posts_returned P _ _ _ E) E2).
  rewrite E2. cbn [trace fst].
  assert (Hs : show_content P v image event_details = ([], Ok tt)).
  { destruct Hv as [-> | ->]; [reflexivity | apply show_content_empty]. }
  rewrite Hs. cbn [trace outcome fst snd app]. now rewrite app_nil_r.
Qed.

(** X15: A description shorter than 10 characters, or made of white space
    only whatever its length, is refused. *)
Theorem short_or_blank_refused (api_key event_details : str) :
  api_key <> [] ->
  length event_details < 10 \/ forallb isspace event_details = true ->
  main P api_key event_details true =
  ([st_error (cp "Please provide more details about your event.")], Ok tt).
Proof.
  intros Hk H.
  assert (Hd : length (strip event_details) < 10).
  { destruct H as [H | H].
    - pose proof (Extraction.strip_length event_details). lia.
    - rewrite (Extraction.strip_spaces _ H). simpl. lia. }
  unfold main. destruct api_key as [|c k]; [congruence|]. cbn [truthy negb].
  destruct (Nat.ltb_spec (length (strip event_details)) 10) as [_|Hge]; [|lia].
  now rewrite orb_true_r.
Qed.

End AnyProvider.

(** *** The prompts *)

Lemma template_slice (indent d : str) (lines : list str) :
  In d lines -> slice_of d (template indent lines).
Proof.
  unfold template. induction lines as [|l ls IH]; [intros []|].
  intros [-> | H]; cbn [map concat].
  - exists (nl :: indent), (concat (map (fun l => nl :: indent ++ l) ls) ++ nl :: indent).
    cbn [app]. f_equal. now rewrite <- !app_assoc.
  - destruct (IH H) as [a [b E]].
    exists ((nl :: indent ++ l) ++ a), b.
    set (x := nl :: indent ++ l) in *.
    now rewrite <- (app_assoc x (concat _)), E, <- (app_assoc x a).
Qed.

(** X16: Both prompts, and the prompt shown under the image, hold the event
    description as the user typed it. *)
Theorem prompts_embed_details (event_details : str) :
  slice_of event_details (posts_prompt event_details) /\
  slice_of event_details (image_prompt indent8 event_details) /\
  slice_of event_details (image_prompt indent24 event_details).
Proof.
  repeat split; apply template_slice; cbn [In]; tauto.
Qed.

Lemma download_only_of_returned_url_witness :
  images_generate Examples.canned
    (image_prompt indent8 Examples.sample_details) Examples.sample_key
  = Ok (cp "https://example.org/promo.png").
Proof.
  apply (download_only_of_returned_url Examples.canned).
  right. left. reflexivity.
Defined.

Lemma main_raises_iff_witness :
  outcome (main Examples.bare_reply Examples.sample_key
                Examples.sample_details true) = Raise IndexError.
Proof.
  apply main_raises_iff. split; [reflexivity|].
  split; [discriminate|]. split; [vm_compute; lia|].
  exists Examples.posts_no_twitter, [137%N],
         (Some (cp "https://example.org/promo.png")).
  split; [reflexivity|]. split; [discriminate|]. split; [reflexivity|].
  left. reflexivity.
Defined.

Lemma crash_after_raw_text_witness :
  main Examples.bare_reply Examples.sample_key Examples.sample_details true =
  (st_columns [3; 2]
     :: Enter (spinner (cp "Generating social media posts..."))
     :: trace (generate_social_media_posts Examples.bare_reply
                 Examples.sample_details Examples.sample_key)
     ++ Enter (spinner (cp "Creating promotional image..."))
     :: trace (generate_event_image Examples.bare_reply
                 Examples.sample_details Examples.sample_key)
     ++ [st_success (cp "Content generated successfully!");
         Enter col1; st_subheader (cp "Social Media Posts");
         st_markdown Examples.posts_no_twitter false],
   Raise IndexError).
Proof.
  apply (crash_after_raw_text Examples.bare_reply Examples.sample_key
           Examples.sample_details Examples.posts_no_twitter [137%N]
           (Some (cp "https://example.org/promo.png")));
    [discriminate | vm_compute; lia | reflexivity | reflexivity | reflexivity].
Defined.

Lemma complete_run_shows_all_witness :
  let run := main Examples.canned Examples.sample_key
                  Examples.sample_details true in
  outcome run = Ok tt /\
  In (st_markdown Examples.posts_example false) (trace run) /\
  In (st_text_area (cp "LinkedIn Post") (cp "Join us! #Event") 150) (trace run) /\
  In (st_text_area (cp "Twitter Post") (cp "Come join! #Fun") 100) (trace run) /\
  In (st_text_area (cp "WhatsApp Post") (cp "Hey, check this out!") 150)
     (trace run) /\
  In (@st_image Examples.canned [137%N]) (trace run) /\
  In (st_markdown
        (href_of (b64encode [137%N]) (cp "event_promo_image")
           (cp "Download Image")) true) (trace run).
Proof.
  apply (complete_run_shows_all Examples.canned Examples.sample_key
           Examples.sample_details Examples.posts_example _ _ _ [137%N]
           (Some (cp "https://example.org/promo.png")) [137%N]);
    [discriminate | vm_compute; lia | reflexivity | reflexivity | reflexivity
    | reflexivity | reflexivity].
Defined.

Lemma unlabelled_run_degrades_witness :
  main Examples.plain_reply Examples.sample_key Examples.sample_details true =
  (st_columns [3; 2]
     :: Enter (spinner (cp "Generating social media posts..."))
     :: trace (generate_social_media_posts Examples.plain_reply
                 Examples.sample_details Examples.sample_key)
     ++ Enter (spinner (cp "Creating promotional image..."))
     :: trace (generate_event_image Examples.plain_reply
                 Examples.sample_details Examples.sample_key)
     ++ [st_success (cp "Content generated successfully!");
         Enter col1; st_subheader (cp "Social Media Posts");
         st_markdown Examples.posts_unlabelled false;
         Enter col2; st_subheader (cp "Promotional Image");
         @st_image Examples.plain_reply [137%N];
         st_markdown
           (href_of (b64encode [137%N]) (cp "event_promo_image")
              (cp "Download Image")) true;
         Enter (expander (cp "View the image prompt"));
         st_write (image_prompt indent24 Examples.sample_details)],
   Ok tt).
Proof.
  apply (unlabelled_run_degrades Examples.plain_reply Examples.sample_key
           Examples.sample_details Examples.posts_unlabelled [137%N]
           (Some (cp "https://example.org/promo.png")) [137%N]);
    [discriminate | vm_compute; lia | reflexivity | discriminate
    | reflexivity | reflexivity | reflexivity | reflexivity].
Defined.

Lemma empty_reply_is_silent_witness :
  main Examples.empty_reply Examples.sample_key Examples.sample_details true =
  (st_columns [3; 2]
     :: Enter (spinner (cp "Generating social media posts..."))
     :: TextRequest (posts_prompt Examples.sample_details) Examples.sample_key
     :: Enter (spinner (cp "Creating promotional image..."))
     :: trace (generate_event_image Examples.empty_reply
                 Examples.sample_details Examples.sample_key),
   Ok tt).
Proof.
  apply (empty_reply_is_silent Examples.empty_reply Examples.sample_key
           Examples.sample_details (Some []));
    [discriminate | vm_compute; lia | reflexivity | right; reflexivity].
Defined.

Lemma short_or_blank_refused_witness :
  main Examples.canned Examples.sample_key (repeat 32%N 12 ++ [nl]) true =
  ([st_error (cp "Please provide more details about your event.")], Ok tt).
Proof.
  apply short_or_blank_refused; [discriminate | right; reflexivity].
Defined.

End WholeRuns.

(** ** The download link and its base64 text *)

Module Link.
Import Py PyFacts App.

Lemma by_triples (Q : bytes -> Prop) :
  Q [] -> (forall a, Q [a]) -> (forall a b, Q [a; b]) ->
  (forall a b c rest, Q rest -> Q (a :: b :: c :: rest)) ->
  forall data, Q data.
Proof.
  intros H0 H1 H2 H3 data.
  assert (H : Q data /\ (forall a, Q (a :: data)) /\
              (forall a b, Q (a :: b :: data))).
  { induction data as [|x data (IH0 & IH1 & IH2)].
    - repeat split; auto.
    - repeat split; auto. }
  apply H.
Qed.

Lemma b64encode_triple (a b c : N) (rest : bytes) :
  b64encode (a :: b :: c :: rest) =
  (b64_char (a / 4) :: b64_char ((a mod 4) * 16 + b / 16)
   :: b64_char ((b mod 16) * 4 + c / 64) :: b64_char (c mod 64)
   :: b64encode rest)%N.
Proof. reflexivity. Qed.

Lemma b64_char_alphabet (i : N) :
  (i < 64)%N -> is_b64_char (b64_char i) = true.
Proof.
  intros H. unfold b64_char.
  assert (A : forallb is_b64_char b64_alphabet = true) by reflexivity.
  rewrite forallb_forall in A. apply A. apply nth_In.
  change (length b64_alphabet) with 64. lia.
Qed.

(** X17: The encoding of [n] bytes has [4 * ceil(n / 3)] characters. *)
Theorem b64encode_length (data : bytes) :
  length (b64encode data) = 4 * ((length data + 2) / 3).
Proof.
  induction data as [| a | a b | a b c rest IH] using by_triples;
    try reflexivity.
  rewrite b64encode_triple. cbn [length]. rewrite IH.
  replace (S (S (S (length rest))) + 2) with (1 * 3 + (length rest + 2)) by lia.
  rewrite Nat.div_add_l by lia. lia.
Qed.

Lemma b64encode_chars (data : bytes) :
  Forall (fun b => (b < 256)%N) data ->
  forallb is_b64_char (b64encode data) = true.
Proof.
  induction data as [| a | a b | a b c rest IH] using by_triples; intros H.
  - reflexivity.
  - inversion_clear H as [|? ? Ha _].
    cbn [b64encode forallb].
    rewrite !b64_char_alphabet; [reflexivity | |].
    + pose proof (N.mod_upper_bound a 4). lia.
    + apply N.Div0.div_lt_upper_bound. lia.
  - inversion_clear H as [|? ? Ha H']. inversion_clear H' as [|? ? Hb _].
    cbn [b64encode forallb].
    pose proof (N.mod_upper_bound a 4 ltac:(lia)).
    pose proof (N.mod_upper_bound b 16 ltac:(lia)).
    assert (b / 16 < 16)%N by (apply N.Div0.div_lt_upper_bound; lia).
    rewrite !b64_char_alphabet; [reflexivity | | |]; try lia.
    apply N.Div0.div_lt_upper_bound. lia.
  - inversion_clear H as [|? ? Ha H']. inversion_clear H' as [|? ? Hb H''].
    inversion_clear H'' as [|? ? Hc Hr].
    rewrite b64encode_triple. cbn [forallb]. rewrite (IH Hr).
    pose proof (N.mod_upper_bound a 4 ltac:(lia)).
    pose proof (N.mod_upper_bound b 16 ltac:(lia)).
    pose proof (N.mod_upper_bound c 64 ltac:(lia)).
    assert (b / 16 < 16)%N by (apply N.Div0.div_lt_upper_bound; lia).
    assert (c / 64 < 4)%N by (apply N.Div0.div_lt_upper_bound; lia).
    rewrite !b64_char_alphabet; [reflexivity | | | |]; try lia.
    apply N.Div0.div_lt_upper_bound. lia.
Qed.

(** X18: The encoding of bytes is made of letters, digits, ['+'], ['/'] and
    ['='] only. *)
Theorem b64encode_alphabet (data : bytes) :
  Forall (fun b => (b < 256)%N) data ->
  forallb is_b64_char (b64encode data) = true.
Proof. exact (b64encode_chars data). Qed.

Lemma b64_no_quote (s : str) :
  forallb is_b64_char s = true -> @count_occ char N.eq_dec s dquote = 0.
Proof.
  intros H. apply count_occ_not_In. intros Hin.
  rewrite forallb_forall in H. specialize (H _ Hin). discriminate.
Qed.

Lemma href_of_quotes (img_str filename text : str) :
  @count_occ char N.eq_dec img_str dquote = 0 ->
  count_occ N.eq_dec (href_of img_str filename text) dquote =
  4 + count_occ N.eq_dec filename dquote + count_occ N.eq_dec text dquote.
Proof.
  intros H. unfold href_of.
  repeat (rewrite count_occ_app || rewrite count_occ_cons_eq by reflexivity).
  rewrite H.
  change (@count_occ char N.eq_dec (cp "<a href=") dquote) with 0.
  change (@count_occ char N.eq_dec (cp "data:image/png;base64,") dquote) with 0.
  change (@count_occ char N.eq_dec (cp " download=") dquote) with 0.
  change (@count_occ char N.eq_dec (cp ".png") dquote) with 0.
  change (@count_occ char N.eq_dec (cp ">") dquote) with 0.
  change (@count_occ char N.eq_dec (cp "</a>") dquote) with 0.
  unfold char. lia.
Qed.

(** X19: When the image saves as PNG bytes, the link is made of their
    base64 text and holds the four double quotes of its two attributes
    and no others than those of the file name and of the link text:
    the image data cannot close the [href]. *)
Theorem download_link_quotes (P : Provider) (img : Image P) (data : bytes)
    (filename text : str) :
  Image_save_png P img = Ok data ->
  Forall (fun b => (b < 256)%N) data ->
  get_image_download_link P img filename text
  = Ok (href_of (b64encode data) filename text) /\
  count_occ N.eq_dec (href_of (b64encode data) filename text) dquote =
  4 + count_occ N.eq_dec filename dquote + count_occ N.eq_dec text dquote.
Proof.
  intros E H. split.
  - unfold get_image_download_link. now rewrite E.
  - apply href_of_quotes. exact (b64_no_quote _ (b64encode_chars _ H)).
Qed.

Lemma b64encode_alphabet_witness :
  forallb is_b64_char (b64encode [137; 80; 78; 71]%N) = true.
Proof.
  apply b64encode_alphabet. repeat constructor.
Defined.

Lemma download_link_quotes_witness :
  get_image_download_link Examples.canned [137%N]
    (cp "event_promo_image") (cp "Download Image")
  = Ok (href_of (b64encode [137%N]) (cp "event_promo_image")
          (cp "Download Image")) /\
  count_occ N.eq_dec
    (href_of (b64encode [137%N]) (cp "event_promo_image")
       (cp "Download Image")) dquote
  = 4 + count_occ N.eq_dec (cp "event_promo_image") dquote
      + count_occ N.eq_dec (cp "Download Image") dquote.
Proof.
  apply (download_link_quotes Examples.canned [137%N] [137%N]);
    [reflexivity | repeat constructor].
Defined.

End Link.
